(** * Knapsack solvers of [main.py]: branch and bound against brute force

    A shallow embedding of [compute_value], [compute_cost],
    [expand_branches], [branch_and_bound] and [brute_force], followed by
    the properties of these functions.

    Python integers are [Z].  An entry of a solution under construction is
    [None] (not decided yet), [Some 0] (left out) or [Some 1] (taken), as
    the lists of [None], [0] and [1] of the source; a finished solution is
    a list of integers.  An exception is a value of [exn], and a function
    that may raise returns a [result]. *)

From Equations Require Import Equations.
From Stdlib Require Import List ZArith Arith Lia Bool ZifyBool.
Import ListNotations.
Local Open Scope Z_scope.

(** ** Exceptions *)

Inductive exn : Type :=
| AssertionError
| IndexError.

Inductive result (A : Type) : Type :=
| Ok (a : A)
| Raise (e : exn).
Arguments Ok {A} a.
Arguments Raise {A} e.

Definition bind {A B : Type} (r : result A) (k : A -> result B) : result B :=
  match r with
  | Ok a => k a
  | Raise e => Raise e
  end.

Notation "x <- r ;; k" := (bind r (fun x => k))
  (at level 61, r at next level, right associativity).

(** ** Data *)

(** An option is the pair (value, cost). *)
Definition item : Type := (Z * Z)%type.

(** A node of the search tree. *)
Definition node : Type := list (option Z).

(** (solution, value, cost) *)
Definition candidate : Type := (node * Z * Z)%type.

Definition cand_node (b : candidate) : node := fst (fst b).
Definition cand_value (b : candidate) : Z := snd (fst b).
Definition cand_cost (b : candidate) : Z := snd b.

(** ** The evaluator *)

(** [solution[i] == 1] *)
Definition is_one (x : option Z) : bool :=
  match x with
  | Some v => v =? 1
  | None => false
  end.

(** [options[i]], which raises [IndexError] past the end. *)
Definition get_item (options : list item) (i : nat) : result item :=
  match nth_error options i with
  | Some o => Ok o
  | None => Raise IndexError
  end.

(** The indices [i] in [range(len(solution))] with [solution[i] == 1]. *)
Definition chosen (solution : node) : list nat :=
  filter (fun i => is_one (nth i solution None)) (seq 0 (length solution)).

(** [sum([proj(options[i]) for i in idx])]: the list is built from left to
    right, and the first index out of range raises. *)
Fixpoint sum_at (proj : item -> Z) (options : list item) (idx : list nat)
  : result Z :=
  match idx with
  | [] => Ok 0
  | i :: idx' =>
      o <- get_item options i ;;
      s <- sum_at proj options idx' ;;
      Ok (proj o + s)
  end.

Definition compute_value (solution : node) (options : list item) : result Z :=
  sum_at fst options (chosen solution).

Definition compute_cost (solution : node) (options : list item) : result Z :=
  sum_at snd options (chosen solution).

(** ** Branch expansion *)

(** [solution.index(None)], defined when [None in solution]. *)
Fixpoint index_None (solution : node) : option nat :=
  match solution with
  | [] => None
  | None :: _ => Some 0%nat
  | Some _ :: rest => option_map S (index_None rest)
  end.

(** [next_node = solution[:]; next_node[i] = v] for an index in range. *)
Fixpoint set_nth (i : nat) (v : option Z) (solution : node) : node :=
  match solution, i with
  | [], _ => []
  | _ :: rest, O => v :: rest
  | x :: rest, S i' => x :: set_nth i' v rest
  end.

Definition expand_branches (solution : node) : list node :=
  match index_None solution with
  | Some next_node_index =>
      map (fun value => set_nth next_node_index (Some value) solution) [0; 1]
  | None => []
  end.

(** ** The branch and bound solver *)

(** The test that replaces the best solution found so far. *)
Definition improves (value cost : Z) (best_solution : candidate) : bool :=
  (value >? cand_value best_solution)
  || ((value =? cand_value best_solution) && (cost <? cand_cost best_solution)).

(** Number of [None] entries. *)
Definition unset (solution : node) : nat :=
  length (filter (fun x => match x with None => true | Some _ => false end)
            solution).

(** The size of the subtree that a pending node can still produce. *)
Definition weight (solution : node) : nat := (2 ^ S (unset solution) - 1)%nat.

Definition frontier_weight (branches : list node) : nat :=
  list_sum (map weight branches).

(** Deciding the first [None] entry removes one [None]. *)
Lemma unset_set_nth (solution : node) (i : nat) (v : Z) :
  index_None solution = Some i ->
  S (unset (set_nth i (Some v) solution)) = unset solution.
Proof.
  unfold unset. revert i.
  induction solution as [|x rest IH]; intros i H; simpl in H.
  - discriminate.
  - destruct x as [z|].
    + destruct (index_None rest) as [j|] eqn:E; simpl in H; [|discriminate].
      injection H as <-. simpl. apply (IH j). reflexivity.
    + injection H as <-. reflexivity.
Qed.

Lemma weight_pos (solution : node) : (0 < weight solution)%nat.
Proof.
  unfold weight.
  assert (2 ^ unset solution <> 0)%nat by (apply Nat.pow_nonzero; lia).
  rewrite Nat.pow_succ_r'. lia.
Qed.

Lemma frontier_weight_app (l1 l2 : list node) :
  frontier_weight (l1 ++ l2) = (frontier_weight l1 + frontier_weight l2)%nat.
Proof. unfold frontier_weight. rewrite map_app, list_sum_app. reflexivity. Qed.

(** The children of a node weigh less than the node. *)
Lemma expand_branches_weight (solution : node) :
  (frontier_weight (expand_branches solution) < weight solution)%nat.
Proof.
  unfold expand_branches.
  destruct (index_None solution) as [i|] eqn:E.
  - unfold frontier_weight, weight. simpl.
    pose proof (unset_set_nth solution i 0 E) as H0.
    pose proof (unset_set_nth solution i 1 E) as H1.
    rewrite <- H0. injection (eq_trans H1 (eq_sym H0)) as ->.
    set (k := unset (set_nth i (Some 0) solution)).
    assert (2 ^ k <> 0)%nat by (apply Nat.pow_nonzero; lia).
    rewrite !Nat.pow_succ_r'. lia.
  - apply weight_pos.
Qed.

(** The [while branches:] loop.  Each round pops the front of the queue;
    the queue weighs less after the round, which is why the loop ends. *)
Equations? bb_loop (options : list item) (bound : Z)
  (branches : list node) (best_solution : candidate)
  : result candidate by wf (frontier_weight branches) lt :=
  bb_loop options bound [] best_solution := Ok best_solution;
  bb_loop options bound (solution :: rest) best_solution
    with compute_cost solution options := {
    | Raise e := Raise e
    | Ok cost with compute_value solution options := {
      | Raise e := Raise e
      | Ok value with (cost <=? bound) := {
        | true :=
            bb_loop options bound (rest ++ expand_branches solution)
              (if improves value cost best_solution
               then (solution, value, cost)
               else best_solution)
        | false := bb_loop options bound rest best_solution } } }.
Proof.
  - rewrite frontier_weight_app.
    pose proof (expand_branches_weight solution).
    unfold frontier_weight in *. simpl. lia.
  - pose proof (weight_pos solution).
    unfold frontier_weight. simpl. lia.
Qed.

(** [[x if x is not None else 0 for x in best_solution[0]]] *)
Definition fill (solution : node) : list Z :=
  map (fun x => match x with Some v => v | None => 0 end) solution.

Definition branch_and_bound (options : list item) (bound : Z)
  : result (list Z * Z * Z) :=
  let solution := repeat (@None Z) (length options) in
  let best_solution : candidate := (repeat (Some 0) (length options), 0, 0) in
  let branches := expand_branches solution in
  best_solution <- bb_loop options bound branches best_solution ;;
  if cand_cost best_solution <=? bound
  then Ok (fill (cand_node best_solution),
           cand_value best_solution, cand_cost best_solution)
  else Raise AssertionError.

(** ** The brute force solver *)

(** [itertools.product(range(2), repeat=n)], in its order: the last
    position moves fastest. *)
Fixpoint product01 (n : nat) : list (list Z) :=
  match n with
  | O => [[]]
  | S n' => flat_map (fun x => map (cons x) (product01 n')) [0; 1]
  end.

(** The test of [brute_force]: only its first half asks for feasibility. *)
Definition bf_improves (bound value cost : Z) (best_solution : candidate)
  : bool :=
  ((cost <=? bound) && (value >? cand_value best_solution))
  || ((value =? cand_value best_solution) && (cost <? cand_cost best_solution)).

(** One round of the [for] loop. *)
Definition bf_step (options : list item) (bound : Z)
  (best_solution : candidate) (solution : list Z) : result candidate :=
  cost <- compute_cost (map Some solution) options ;;
  value <- compute_value (map Some solution) options ;;
  if bf_improves bound value cost best_solution
  then Ok (map Some solution, value, cost)
  else Ok best_solution.

Fixpoint bf_loop (options : list item) (bound : Z)
  (solutions : list (list Z)) (best_solution : candidate) : result candidate :=
  match solutions with
  | [] => Ok best_solution
  | solution :: rest =>
      best_solution' <- bf_step options bound best_solution solution ;;
      bf_loop options bound rest best_solution'
  end.

Definition brute_force (options : list item) (bound : Z)
  : result (list Z * Z * Z) :=
  let best_solution : candidate := (repeat (Some 0) (length options), 0, 0) in
  best_solution <-
    bf_loop options bound (product01 (length options)) best_solution ;;
  if cand_cost best_solution <=? bound
  then Ok (fill (cand_node best_solution),
           cand_value best_solution, cand_cost best_solution)
  else Raise AssertionError.

(** ** The search, one round at a time *)

(** The state of the [while] loop: the queue and the best solution. *)
Definition state : Type := (list node * candidate)%type.

(** One round of the [while] loop; a state whose queue is empty is final
    and stays as it is. *)
Definition bb_round (options : list item) (bound : Z) (st : state)
  : result state :=
  match fst st with
  | [] => Ok st
  | solution :: rest =>
      cost <- compute_cost solution options ;;
      value <- compute_value solution options ;;
      if cost <=? bound
      then Ok (rest ++ expand_branches solution,
               if improves value cost (snd st)
               then (solution, value, cost)
               else snd st)
      else Ok (rest, snd st)
  end.

(** The state after [k] rounds. *)
Fixpoint bb_rounds (options : list item) (bound : Z) (k : nat) (st : state)
  : result state :=
  match k with
  | O => Ok st
  | S k' => st' <- bb_round options bound st ;; bb_rounds options bound k' st'
  end.

(** The state in which [branch_and_bound] enters its loop. *)
Definition bb_init (options : list item) : state :=
  (expand_branches (repeat (@None Z) (length options)),
   (repeat (Some 0) (length options), 0, 0)).

(** The best solution of [brute_force] when its loop has run over the
    first [k] tuples of the enumeration. *)
Definition bf_after (options : list item) (bound : Z) (k : nat)
  : result candidate :=
  bf_loop options bound (firstn k (product01 (length options)))
    (repeat (Some 0) (length options), 0, 0).

(** The levels of the search tree when nothing is pruned: level 0 is the
    root, and each level holds the children of the level above. *)
Fixpoint level (n k : nat) : list node :=
  match k with
  | O => [repeat (@None Z) n]
  | S k' => flat_map expand_branches (level n k')
  end.

(** ** Vocabulary of the properties *)

Definition nonneg_items (options : list item) : Prop :=
  Forall (fun o => 0 <= fst o /\ 0 <= snd o) options.

(** A decided entry is 0 or 1. *)
Definition binary (a : list Z) : Prop := Forall (fun x => x = 0 \/ x = 1) a.

(** What one entry adds to a sum: the item's part when the entry is 1. *)
Definition contribution (proj : item -> Z) (x : option Z) (o : item) : Z :=
  match x with
  | Some 1 => proj o
  | _ => 0
  end.

(** The sum over the indices marked 1, entry by entry. *)
Definition sum_included (proj : item -> Z) (solution : node)
  (options : list item) : Z :=
  fold_right Z.add 0
    (map (fun p => contribution proj (fst p) (snd p)) (combine solution options)).

(** [a] is a complete assignment for [options] that the evaluator prices
    at [(v, c)], within the bound. *)
Definition feasible (options : list item) (bound : Z) (a : list Z) (v c : Z)
  : Prop :=
  length a = length options /\ binary a /\
  compute_value (map Some a) options = Ok v /\
  compute_cost (map Some a) options = Ok c /\
  c <= bound.

(** [(a, v, c)] is feasible, no feasible assignment has a greater value,
    and none of the same value has a smaller cost. *)
Definition optimal (options : list item) (bound : Z) (r : list Z * Z * Z)
  : Prop :=
  let '(a, v, c) := r in
  feasible options bound a v c /\
  forall a' v' c', feasible options bound a' v' c' ->
    v' <= v /\ (v' = v -> c <= c').

(** * Properties *)

(** ** The evaluator *)

Lemma contribution_is_one (proj : item -> Z) (x : option Z) (o : item) :
  contribution proj x o = if is_one x then proj o else 0.
Proof. destruct x as [[|[p|p|]|p]|]; reflexivity. Qed.

Lemma chosen_cons (x : option Z) (s : node) :
  chosen (x :: s) =
  if is_one x then 0%nat :: map S (chosen s) else map S (chosen s).
Proof.
  unfold chosen. simpl length. simpl seq.
  rewrite <- seq_shift. simpl filter.
  rewrite filter_map_swap. reflexivity.
Qed.

Lemma sum_at_shift (proj : item -> Z) (o : item) (os : list item)
  (idx : list nat) :
  sum_at proj (o :: os) (map S idx) = sum_at proj os idx.
Proof.
  induction idx as [|i idx IH]; simpl; [reflexivity|].
  rewrite IH. reflexivity.
Qed.

Lemma sum_at_chosen (proj : item -> Z) (solution : node) :
  forall options : list item,
    (length solution <= length options)%nat ->
    sum_at proj options (chosen solution)
    = Ok (sum_included proj solution options).
Proof.
  induction solution as [|x s IH]; intros options Hlen.
  - reflexivity.
  - destruct options as [|o os]; simpl in Hlen; [lia|].
    assert (Hs : (length s <= length os)%nat) by lia.
    specialize (IH os Hs).
    rewrite chosen_cons. unfold sum_included. simpl combine. simpl map.
    simpl fold_right. rewrite contribution_is_one.
    destruct (is_one x).
    + simpl. rewrite sum_at_shift, IH. reflexivity.
    + rewrite sum_at_shift, IH. reflexivity.
Qed.

Lemma compute_value_sum (solution : node) (options : list item) :
  (length solution <= length options)%nat ->
  compute_value solution options = Ok (sum_included fst solution options).
Proof. apply sum_at_chosen. Qed.

Lemma compute_cost_sum (solution : node) (options : list item) :
  (length solution <= length options)%nat ->
  compute_cost solution options = Ok (sum_included snd solution options).
Proof. apply sum_at_chosen. Qed.

(** An entry that is [None] counts like an entry that is 0. *)
Lemma sum_included_fill (proj : item -> Z) (solution : node) :
  forall options : list item,
    sum_included proj (map Some (fill solution)) options
    = sum_included proj solution options.
Proof.
  unfold sum_included.
  induction solution as [|x s IH]; intros [|o os]; simpl; try reflexivity.
  rewrite IH. destruct x; reflexivity.
Qed.

(** C7: on a solution as long as the item sequence, [compute_cost] is the
    sum of the costs of the items whose entry is 1 and [compute_value] the
    sum of their values; an entry that is [None] or 0 adds nothing, so
    that turning every [None] into 0 changes neither sum.  Both are
    functions of their arguments. *)
Theorem evaluator_sums (solution : node) (options : list item) :
  length solution = length options ->
  compute_cost solution options = Ok (sum_included snd solution options) /\
  compute_value solution options = Ok (sum_included fst solution options) /\
  (forall (proj : item -> Z) (o : item),
      contribution proj None o = 0 /\ contribution proj (Some 0) o = 0 /\
      contribution proj (Some 1) o = proj o) /\
  compute_cost (map Some (fill solution)) options
  = compute_cost solution options /\
  compute_value (map Some (fill solution)) options
  = compute_value solution options.
Proof.
  intros Hlen.
  assert (Hfill : (length (map Some (fill solution)) <= length options)%nat).
  { unfold fill. rewrite !length_map. lia. }
  repeat split.
  - apply compute_cost_sum. lia.
  - apply compute_value_sum. lia.
  - rewrite (compute_cost_sum _ _ Hfill), sum_included_fill.
    symmetry. apply compute_cost_sum. lia.
  - rewrite (compute_value_sum _ _ Hfill), sum_included_fill.
    symmetry. apply compute_value_sum. lia.
Qed.

Lemma evaluator_sums_witness :
  compute_cost [Some 1; None; Some 0; Some 1] [(10, 5); (7, 3); (4, 4); (6, 2)]
  = Ok 7 /\
  compute_value [Some 1; None; Some 0; Some 1] [(10, 5); (7, 3); (4, 4); (6, 2)]
  = Ok 16.
Proof.
  destruct (evaluator_sums [Some 1; None; Some 0; Some 1]
              [(10, 5); (7, 3); (4, 4); (6, 2)] eq_refl) as (Hc & Hv & _).
  split; [exact Hc | exact Hv].
Defined.

(** ** Branch expansion *)

Lemma index_None_In (solution : node) :
  index_None solution = None <-> ~ In None solution.
Proof.
  induction solution as [|[z|] rest IH]; simpl.
  - tauto.
  - split; intros H.
    + intros [Hc|Hc]; [discriminate|].
      destruct (index_None rest); [discriminate|]. now apply IH.
    + assert (Hr : index_None rest = None) by (apply IH; tauto).
      now rewrite Hr.
  - split; [discriminate|]. intros H. exfalso. apply H. now left.
Qed.

Lemma index_None_lowest (solution : node) :
  forall i, index_None solution = Some i ->
    nth_error solution i = Some None /\
    forall j, (j < i)%nat -> nth_error solution j <> Some None.
Proof.
  induction solution as [|[z|] rest IH]; simpl; intros i H.
  - discriminate.
  - destruct (index_None rest) as [k|]; simpl in H; [|discriminate].
    injection H as <-. destruct (IH k eq_refl) as [Hk Hlow].
    split; [exact Hk|].
    intros [|j] Hj; simpl; [discriminate|]. apply Hlow. lia.
  - injection H as <-. split; [reflexivity|]. intros j Hj. lia.
Qed.

Lemma length_set_nth (i : nat) (v : option Z) (solution : node) :
  length (set_nth i v solution) = length solution.
Proof.
  revert i. induction solution as [|x rest IH]; intros [|i]; simpl;
    try reflexivity. now rewrite IH.
Qed.

Lemma nth_error_set_nth_eq (i : nat) (v : option Z) (solution : node) :
  (i < length solution)%nat -> nth_error (set_nth i v solution) i = Some v.
Proof.
  revert i. induction solution as [|x rest IH]; intros [|i]; simpl; intros H;
    try lia; [reflexivity|]. apply IH. lia.
Qed.

Lemma nth_error_set_nth_neq (i j : nat) (v : option Z) (solution : node) :
  j <> i -> nth_error (set_nth i v solution) j = nth_error solution j.
Proof.
  revert i j. induction solution as [|x rest IH]; intros [|i] [|j] H; simpl;
    try reflexivity; [lia|]. apply IH. lia.
Qed.

(** C6: a solution with a [None] entry has exactly two children, which
    differ from it only at the lowest index holding [None]: there the
    first child has 0 and the second has 1.  A solution without a [None]
    entry has no child. *)
Theorem expand_branches_children (solution : node) :
  (In None solution ->
   exists (i : nat) (c0 c1 : node),
     expand_branches solution = [c0; c1] /\
     nth_error solution i = Some None /\
     (forall j, (j < i)%nat -> nth_error solution j <> Some None) /\
     length c0 = length solution /\ length c1 = length solution /\
     nth_error c0 i = Some (Some 0) /\ nth_error c1 i = Some (Some 1) /\
     (forall j, j <> i ->
        nth_error c0 j = nth_error solution j /\
        nth_error c1 j = nth_error solution j)) /\
  (~ In None solution -> expand_branches solution = []).
Proof.
  unfold expand_branches. split.
  - intros Hin. destruct (index_None solution) as [i|] eqn:E.
    + destruct (index_None_lowest solution i E) as [Hi Hlow].
      assert (Hlt : (i < length solution)%nat).
      { apply nth_error_Some. rewrite Hi. discriminate. }
      exists i, (set_nth i (Some 0) solution), (set_nth i (Some 1) solution).
      repeat split; auto using length_set_nth, nth_error_set_nth_eq,
        nth_error_set_nth_neq.
    + apply index_None_In in E. contradiction.
  - intros Hn. apply index_None_In in Hn. now rewrite Hn.
Qed.

Lemma expand_branches_children_witness :
  In None [Some 1; None; Some 0; None] /\
  exists (i : nat) (c0 c1 : node),
    expand_branches [Some 1; None; Some 0; None] = [c0; c1] /\
    nth_error c0 i = Some (Some 0) /\ nth_error c1 i = Some (Some 1).
Proof.
  assert (Hin : In None [Some 1; None; Some 0; None]) by (simpl; tauto).
  split; [exact Hin|].
  destruct (proj1 (expand_branches_children _) Hin)
    as (i & c0 & c1 & E & _ & _ & _ & _ & H0 & H1 & _).
  exists i, c0, c1. auto.
Defined.

(** ** The loop of [branch_and_bound], round by round *)

Lemma bb_loop_round (options : list item) (bound : Z)
  (branches : list node) (best_solution : candidate) :
  bb_loop options bound branches best_solution =
  match branches with
  | [] => Ok best_solution
  | _ :: _ =>
      st <- bb_round options bound (branches, best_solution) ;;
      bb_loop options bound (fst st) (snd st)
  end.
Proof.
  destruct branches as [|solution rest]; simp bb_loop; [reflexivity|].
  unfold bb_round. simpl.
  destruct (compute_cost solution options) as [cost|e]; simpl;
    [|reflexivity].
  destruct (compute_value solution options) as [value|e]; simpl;
    [|reflexivity].
  destruct (cost <=? bound); reflexivity.
Qed.

Lemma bb_round_weight (options : list item) (bound : Z) (st st' : state) :
  fst st <> [] -> bb_round options bound st = Ok st' ->
  (frontier_weight (fst st') < frontier_weight (fst st))%nat.
Proof.
  destruct st as [[|solution rest] best]; simpl; [congruence|].
  intros _. unfold bb_round. simpl.
  destruct (compute_cost solution options) as [cost|e]; simpl;
    [|discriminate].
  destruct (compute_value solution options) as [value|e]; simpl;
    [|discriminate].
  pose proof (expand_branches_weight solution) as Hw.
  pose proof (weight_pos solution) as Hp.
  destruct (cost <=? bound); intros H; injection H as <-; simpl.
  - rewrite frontier_weight_app. unfold frontier_weight in *. simpl. lia.
  - unfold frontier_weight in *. simpl. lia.
Qed.

Section Invariant.

Variables (options : list item) (bound : Z).
Variable Inv : state -> Prop.

(** A round started in a state of the invariant raises nothing, and
    ends in a state of the invariant. *)
Hypothesis Inv_round :
  forall st, Inv st -> fst st <> [] ->
    exists st', bb_round options bound st = Ok st' /\ Inv st'.

Lemma bb_rounds_invariant (k : nat) :
  forall st, Inv st ->
    exists st', bb_rounds options bound k st = Ok st' /\ Inv st'.
Proof.
  induction k as [|k IH]; intros st H; simpl.
  - exists st. auto.
  - destruct (fst st) as [|solution rest] eqn:E.
    + unfold bb_round. rewrite E. simpl. apply IH, H.
    + destruct (Inv_round st H) as (st' & R & H'); [congruence|].
      rewrite R. simpl. apply IH, H'.
Qed.

(** The loop started in a state of the invariant returns, after as many
    rounds as the queue weighs at most, with the invariant and an empty
    queue. *)
Lemma bb_loop_invariant :
  forall st, Inv st ->
    exists (k : nat) (best : candidate),
      (k <= frontier_weight (fst st))%nat /\
      bb_rounds options bound k st = Ok ([], best) /\
      bb_loop options bound (fst st) (snd st) = Ok best /\
      Inv ([], best).
Proof.
  intros st.
  remember (frontier_weight (fst st)) as w eqn:Ew.
  revert st Ew.
  induction w as [w IH] using lt_wf_ind; intros st Ew H.
  destruct st as [[|solution rest] best].
  - exists 0%nat, best. simpl. rewrite bb_loop_round. repeat split; auto.
    lia.
  - destruct (Inv_round _ H) as (st' & R & H'); [simpl; congruence|].
    assert (Hw : (frontier_weight (fst st')
                  < frontier_weight (fst (solution :: rest, best)))%nat).
    { apply (bb_round_weight options bound _ st'); [simpl; congruence|].
      exact R. }
    destruct (IH (frontier_weight (fst st')) ltac:(lia) st' eq_refl H')
      as (k & best' & Hk & Hr & Hl & Hi).
    exists (S k), best'. repeat split.
    + lia.
    + simpl bb_rounds. rewrite R. exact Hr.
    + rewrite bb_loop_round. simpl fst. simpl snd. rewrite R. exact Hl.
    + exact Hi.
Qed.

End Invariant.

(** ** Shape of the nodes and of the search tree *)

(** The entries of a node are [None], 0 or 1. *)
Definition ternary (p : node) : Prop :=
  Forall (fun x => x = None \/ x = Some 0 \/ x = Some 1) p.

Definition good_node (n : nat) (p : node) : Prop :=
  length p = n /\ ternary p.

Lemma ternary_set_nth (i : nat) (v : Z) (p : node) :
  v = 0 \/ v = 1 -> ternary p -> ternary (set_nth i (Some v) p).
Proof.
  intros Hv H. revert i. induction H as [|x rest Hx Hrest IH]; intros [|i];
    simpl; constructor; auto.
  - destruct Hv as [-> | ->]; auto.
  - apply IH.
Qed.

Lemma In_expand_branches (p q : node) :
  In q (expand_branches p) ->
  exists (i : nat) (v : Z),
    index_None p = Some i /\ (v = 0 \/ v = 1) /\ q = set_nth i (Some v) p.
Proof.
  unfold expand_branches. destruct (index_None p) as [i|]; simpl; [|tauto].
  intros [<- | [<- | []]]; [exists i, 0 | exists i, 1]; auto.
Qed.

Lemma expand_branches_good (n : nat) (p : node) :
  good_node n p -> Forall (good_node n) (expand_branches p).
Proof.
  intros [Hlen Ht]. apply Forall_forall. intros q Hq.
  destruct (In_expand_branches p q Hq) as (i & v & _ & Hv & ->).
  split; [now rewrite length_set_nth | now apply ternary_set_nth].
Qed.

Lemma good_repeat_None (n : nat) : good_node n (repeat None n).
Proof.
  split; [apply repeat_length|]. apply Forall_forall.
  intros x Hx. apply repeat_spec in Hx. auto.
Qed.

Lemma good_repeat_zero (n : nat) : good_node n (repeat (Some 0) n).
Proof.
  split; [apply repeat_length|]. apply Forall_forall.
  intros x Hx. apply repeat_spec in Hx. auto.
Qed.

Lemma unset_repeat_None (n : nat) : unset (repeat None n) = n.
Proof. unfold unset. induction n; simpl; [reflexivity | now f_equal]. Qed.

Lemma unset_zero_index (p : node) : unset p = 0%nat -> index_None p = None.
Proof.
  unfold unset. induction p as [|[z|] rest IH]; simpl; intros H.
  - reflexivity.
  - now rewrite IH.
  - discriminate.
Qed.

Lemma unset_pos_index (p : node) :
  (0 < unset p)%nat -> exists i, index_None p = Some i.
Proof.
  destruct (index_None p) as [i|] eqn:E; [eauto|].
  intros H. exfalso. revert E H. unfold unset.
  induction p as [|[z|] rest IH]; simpl; intros E H.
  - lia.
  - destruct (index_None rest); [discriminate|]. now apply IH.
  - discriminate.
Qed.

(** A node of level [k] has its [k] decisions made and [n - k] to make. *)
Lemma level_nodes (n k : nat) :
  forall p, In p (level n k) ->
    good_node n p /\ (k <= n)%nat /\ unset p = (n - k)%nat.
Proof.
  induction k as [|k IH]; simpl; intros p Hp.
  - destruct Hp as [<- | []]. split; [apply good_repeat_None|].
    rewrite unset_repeat_None. lia.
  - apply in_flat_map in Hp. destruct Hp as (q & Hq & Hp).
    destruct (IH q Hq) as (Hg & Hk & Hu).
    pose proof (expand_branches_good n q Hg) as Hgood.
    rewrite Forall_forall in Hgood.
    destruct (In_expand_branches q p Hp) as (i & v & Hi & _ & ->).
    pose proof (unset_set_nth q i v Hi) as Hs.
    split; [apply Hgood, Hp|]. lia.
Qed.

Lemma length_flat_map_two {A B : Type} (f : A -> list B) (l : list A) :
  (forall x, In x l -> length (f x) = 2%nat) ->
  length (flat_map f l) = (2 * length l)%nat.
Proof.
  induction l as [|x l IH]; simpl; intros H; [reflexivity|].
  rewrite length_app, IH, (H x); auto. lia.
Qed.

Lemma level_length (n k : nat) :
  (k <= n)%nat -> length (level n k) = (2 ^ k)%nat.
Proof.
  induction k as [|k IH]; intros Hk; [reflexivity|].
  simpl level. rewrite length_flat_map_two.
  - rewrite IH by lia. rewrite Nat.pow_succ_r'. reflexivity.
  - intros p Hp. destruct (level_nodes n k p Hp) as (_ & _ & Hu).
    destruct (unset_pos_index p) as [i Hi]; [lia|].
    unfold expand_branches. now rewrite Hi.
Qed.

Lemma level_leaves (n : nat) :
  forall p, In p (level n n) -> ~ In None p /\ expand_branches p = [].
Proof.
  intros p Hp. destruct (level_nodes n n p Hp) as (_ & _ & Hu).
  assert (Hi : index_None p = None) by (apply unset_zero_index; lia).
  split; [now apply index_None_In|].
  unfold expand_branches. now rewrite Hi.
Qed.

Lemma level_below (n : nat) : level n (S n) = [].
Proof.
  simpl. pose proof (level_leaves n) as H.
  induction (level n n) as [|p l IH]; simpl; [reflexivity|].
  rewrite (proj2 (H p (or_introl eq_refl))). simpl.
  apply IH. intros q Hq. apply H. now right.
Qed.

(** The nodes of the queue are nodes of the levels 1 to [n] of the tree. *)
Definition on_levels (n : nat) (st : state) : Prop :=
  Forall (fun p => exists k, (1 <= k <= n)%nat /\ In p (level n k)) (fst st).

Lemma on_levels_good (n : nat) (st : state) :
  on_levels n st -> Forall (good_node n) (fst st).
Proof.
  unfold on_levels. rewrite !Forall_forall. intros H p Hp.
  destruct (H p Hp) as (k & _ & Hk). now apply (level_nodes n k).
Qed.

Lemma on_levels_init (options : list item) :
  on_levels (length options) (bb_init options).
Proof.
  unfold on_levels, bb_init. simpl fst. apply Forall_forall. intros p Hp.
  assert (H1 : In p (level (length options) 1)).
  { simpl. rewrite app_nil_r. exact Hp. }
  exists 1%nat. split; [|exact H1].
  destruct (level_nodes _ _ _ H1) as (_ & Hk & _). lia.
Qed.

Lemma bb_round_good (options : list item) (bound : Z) (solution : node)
  (rest : list node) (best : candidate) :
  length solution = length options ->
  bb_round options bound (solution :: rest, best) =
  Ok (if sum_included snd solution options <=? bound
      then (rest ++ expand_branches solution,
            if improves (sum_included fst solution options)
                 (sum_included snd solution options) best
            then (solution, sum_included fst solution options,
                  sum_included snd solution options)
            else best)
      else (rest, best)).
Proof.
  intros Hlen. unfold bb_round. cbn [fst snd].
  rewrite compute_cost_sum, compute_value_sum by lia. cbn [bind].
  destruct (sum_included snd solution options <=? bound); reflexivity.
Qed.

Lemma on_levels_round (options : list item) (bound : Z) (st : state) :
  on_levels (length options) st -> fst st <> [] ->
  exists st', bb_round options bound st = Ok st' /\
              on_levels (length options) st'.
Proof.
  intros H Hne. destruct st as [[|solution rest] best]; [easy|].
  pose proof (on_levels_good _ _ H) as Hg. simpl in Hg.
  unfold on_levels in H. simpl in H.
  apply Forall_cons_iff in H. destruct H as [(k & Hk & Hin) Hrest].
  apply Forall_cons_iff in Hg. destruct Hg as [[Hlen _] _].
  rewrite (bb_round_good _ _ _ _ _ Hlen).
  eexists. split; [reflexivity|].
  destruct (sum_included snd solution options <=? bound);
    unfold on_levels; simpl; [|exact Hrest].
  apply Forall_app. split; [exact Hrest|].
  apply Forall_forall. intros q Hq.
  assert (Hq' : In q (level (length options) (S k))).
  { simpl. apply in_flat_map. exists solution. auto. }
  exists (S k). split; [|exact Hq'].
  destruct (level_nodes _ _ _ Hq') as (_ & Hle & _). lia.
Qed.

(** C9: whatever the items and the bound, the loop of [branch_and_bound]
    ends with an empty queue, after at most [2^(n+1) - 2] rounds and
    without an exception.  Every node that enters the queue is a node of
    one of the levels 1 to [n] of the tree; level [k] has [2^k] nodes,
    each with two children when [k < n]; the [2^n] nodes of level [n] have
    no [None] entry and no child, so that there is no level [n + 1]. *)
Theorem bb_loop_terminates (options : list item) (bound : Z) :
  (exists (k : nat) (best : candidate),
      (k <= 2 ^ S (length options) - 2)%nat /\
      bb_rounds options bound k (bb_init options) = Ok ([], best) /\
      bb_loop options bound (fst (bb_init options)) (snd (bb_init options))
      = Ok best) /\
  (forall k, exists st,
      bb_rounds options bound k (bb_init options) = Ok st /\
      on_levels (length options) st) /\
  (forall k, (k <= length options)%nat ->
      length (level (length options) k) = (2 ^ k)%nat) /\
  (forall k p, (k < length options)%nat ->
      In p (level (length options) k) ->
      In None p /\ length (expand_branches p) = 2%nat) /\
  (forall p, In p (level (length options) (length options)) ->
      ~ In None p /\ expand_branches p = []) /\
  level (length options) (S (length options)) = [].
Proof.
  refine (conj _ (conj _ (conj _ (conj _ (conj _ _))))).
  - destruct (bb_loop_invariant options bound (on_levels (length options))
                (on_levels_round options bound) (bb_init options)
                (on_levels_init options)) as (k & best & Hk & Hr & Hl & _).
    exists k, best. repeat split; auto.
    pose proof (expand_branches_weight (repeat None (length options))) as Hw.
    unfold weight in Hw. rewrite unset_repeat_None in Hw.
    unfold bb_init in Hk. simpl fst in Hk. lia.
  - intros k.
    apply (bb_rounds_invariant options bound (on_levels (length options))
             (on_levels_round options bound) k (bb_init options)
             (on_levels_init options)).
  - intros k Hk. now apply level_length.
  - intros k p Hk Hp.
    destruct (level_nodes _ _ _ Hp) as (_ & _ & Hu).
    destruct (unset_pos_index p) as [i Hi]; [lia|].
    split.
    + destruct (index_None_lowest p i Hi) as [Hn _].
      apply nth_error_In in Hn. exact Hn.
    + unfold expand_branches. now rewrite Hi.
  - apply level_leaves.
  - apply level_below.
Qed.

Lemma bb_loop_terminates_witness :
  (1 <= length [(10, 5); (7, 3)])%nat /\
  length (level (length [(10, 5); (7, 3)]) 1) = (2 ^ 1)%nat.
Proof.
  assert (H : (1 <= length [(10, 5); (7, 3)])%nat) by (simpl; lia).
  split; [exact H|].
  destruct (bb_loop_terminates [(10, 5); (7, 3)] 4) as (_ & _ & Hl & _).
  exact (Hl 1%nat H).
Defined.

(** ** What the best solution is compared with *)

(** [best] is at least as good as a solution of value [v] and cost [c]:
    it is worth more, or as much for no greater cost. *)
Definition dominates (best : candidate) (v c : Z) : Prop :=
  v < cand_value best \/ (v = cand_value best /\ cand_cost best <= c).

(** The complete assignment [a] agrees with the decisions made in [p]. *)
Definition extends (p : node) (a : list Z) : Prop :=
  Forall2 (fun x y => x = None \/ x = Some y) p a.

(** The value and the cost recorded in [best] are those of its node. *)
Definition priced (options : list item) (best : candidate) : Prop :=
  good_node (length options) (cand_node best) /\
  cand_value best = sum_included fst (cand_node best) options /\
  cand_cost best = sum_included snd (cand_node best) options.

Definition nonneg_costs (options : list item) : Prop :=
  Forall (fun o => 0 <= snd o) options.

Lemma nonneg_items_costs (options : list item) :
  nonneg_items options -> nonneg_costs options.
Proof. apply Forall_impl. tauto. Qed.

Lemma improves_dominates (p : node) (v c : Z) (best : candidate) :
  let best' := if improves v c best then (p, v, c) else best in
  dominates best' v c /\
  forall v' c', dominates best v' c' -> dominates best' v' c'.
Proof.
  unfold improves, dominates. destruct best as [[q bv] bc].
  unfold cand_value, cand_cost. simpl.
  destruct (v >? bv) eqn:E1; simpl.
  - split; [lia|]. intros v' c'. lia.
  - destruct (v =? bv) eqn:E2; simpl.
    + destruct (c <? bc) eqn:E3; simpl; (split; [lia|]); intros v' c'; lia.
    + split; [lia|]. intros v' c'. lia.
Qed.

Lemma sum_included_cons (proj : item -> Z) (x : option Z) (p : node)
  (o : item) (os : list item) :
  sum_included proj (x :: p) (o :: os)
  = contribution proj x o + sum_included proj p os.
Proof. reflexivity. Qed.

Lemma sum_included_nonneg (p : node) :
  forall options, nonneg_costs options -> 0 <= sum_included snd p options.
Proof.
  induction p as [|x p IH]; intros [|o os] H; try (unfold sum_included; simpl; lia).
  rewrite sum_included_cons. apply Forall_cons_iff in H. destruct H as [Ho Hos].
  specialize (IH os Hos). rewrite contribution_is_one.
  destruct (is_one x); lia.
Qed.

(** With costs that are not negative, a node costs no more than the
    complete assignments below it. *)
Lemma extends_cost_le (p : node) (a : list Z) :
  extends p a ->
  forall options, nonneg_costs options ->
    sum_included snd p options <= sum_included snd (map Some a) options.
Proof.
  induction 1 as [|x y p a Hxy Hrest IH]; intros [|o os] H;
    try (unfold sum_included; simpl; lia).
  simpl map. rewrite !sum_included_cons.
  apply Forall_cons_iff in H. destruct H as [Ho Hos].
  specialize (IH os Hos). rewrite !contribution_is_one.
  destruct Hxy as [-> | ->]; simpl is_one; [|lia].
  destruct (y =? 1); lia.
Qed.

Lemma extends_complete (p : node) (a : list Z) :
  extends p a -> index_None p = None -> p = map Some a.
Proof.
  induction 1 as [|x y p a Hxy Hrest IH]; simpl; intros H; [reflexivity|].
  destruct x as [z|]; [|discriminate].
  destruct (index_None p); [discriminate|].
  destruct Hxy as [Hxy|Hxy]; [discriminate|]. rewrite Hxy, IH; reflexivity.
Qed.

Lemma extends_child (p : node) (a : list Z) :
  extends p a -> binary a ->
  forall i, index_None p = Some i ->
    exists q, In q (expand_branches p) /\ extends q a.
Proof.
  intros He Hb i Hi.
  assert (H : extends (set_nth i (Some 0) p) a \/
              extends (set_nth i (Some 1) p) a).
  { revert i Hi Hb. induction He as [|x y p a Hxy Hrest IH]; simpl;
      intros i Hi Hb; [discriminate|].
    apply Forall_cons_iff in Hb. destruct Hb as [Hy Hb].
    destruct x as [z|].
    - destruct (index_None p) as [j|]; simpl in Hi; [|discriminate].
      injection Hi as <-. simpl.
      destruct (IH j eq_refl Hb) as [H|H]; [left|right];
        constructor; assumption.
    - injection Hi as <-. simpl.
      destruct Hy as [-> | ->]; [left|right]; constructor; auto. }
  unfold expand_branches. rewrite Hi. simpl.
  destruct H as [H|H]; eauto.
Qed.

Lemma extends_repeat_None (a : list Z) : extends (repeat None (length a)) a.
Proof. induction a; simpl; constructor; auto. Qed.

Lemma binary_fill (p : node) : ternary p -> binary (fill p).
Proof.
  unfold ternary, binary, fill. intros H. apply Forall_map.
  revert H. apply Forall_impl. intros x [-> | [-> | ->]]; auto.
Qed.

Lemma sum_included_zeros (proj : item -> Z) (n : nat) :
  forall options, sum_included proj (repeat (Some 0) n) options = 0.
Proof.
  induction n as [|n IH]; intros [|o os]; try reflexivity.
  simpl repeat. rewrite sum_included_cons, IH. reflexivity.
Qed.

Lemma priced_init (options : list item) :
  priced options (repeat (Some 0) (length options), 0, 0).
Proof.
  unfold priced, cand_node, cand_value, cand_cost. simpl.
  rewrite !sum_included_zeros. auto using good_repeat_zero.
Qed.

(** ** The invariant of the search *)

Section Search.

Variables (options : list item) (bound : Z).
Hypothesis costs_nonneg : nonneg_costs options.

(** The complete assignment [a] is within the bound. *)
Definition within (a : list Z) : Prop :=
  length a = length options /\ binary a /\
  sum_included snd (map Some a) options <= bound.

(** The best solution is priced and within the bound, and a complete
    assignment within the bound is below a node of the queue unless the
    best solution is already at least as good. *)
Definition search_inv (st : state) : Prop :=
  Forall (good_node (length options)) (fst st) /\
  priced options (snd st) /\
  cand_cost (snd st) <= bound /\
  forall a, within a ->
    (exists p, In p (fst st) /\ extends p a) \/
    dominates (snd st) (sum_included fst (map Some a) options)
      (sum_included snd (map Some a) options).

Lemma search_inv_init :
  0 <= bound -> search_inv (bb_init options).
Proof.
  intros Hb. unfold search_inv, bb_init. cbn [fst snd].
  split; [apply expand_branches_good, good_repeat_None|].
  split; [apply priced_init|].
  split; [exact Hb|].
  intros a (Hlen & Hbin & Hc). rewrite <- Hlen.
  destruct (index_None (repeat None (length a))) as [i|] eqn:E.
  - left. apply (extends_child _ a (extends_repeat_None a) Hbin i E).
  - right. destruct a as [|y a]; [|discriminate].
    unfold dominates, cand_value, cand_cost, sum_included. simpl. lia.
Qed.

Lemma search_inv_round (st : state) :
  search_inv st -> fst st <> [] ->
  exists st', bb_round options bound st = Ok st' /\ search_inv st'.
Proof.
  intros (Hgood & Hpriced & Hcost & Hcover) Hne.
  destruct st as [[|solution rest] best]; [easy|]. cbn [fst snd] in *.
  apply Forall_cons_iff in Hgood. destruct Hgood as [Hsol Hrest].
  rewrite (bb_round_good _ _ _ _ _ (proj1 Hsol)).
  eexists. split; [reflexivity|].
  set (cost := sum_included snd solution options) in *.
  set (value := sum_included fst solution options) in *.
  destruct (improves_dominates solution value cost best) as [Hnew Hold].
  destruct (cost <=? bound) eqn:Hfeas; unfold search_inv; cbn [fst snd].
  - split; [apply Forall_app; split;
              [exact Hrest | now apply expand_branches_good]|].
    split.
    { destruct (improves value cost best); [|exact Hpriced].
      unfold priced, cand_node, cand_value, cand_cost. simpl. auto. }
    split.
    { destruct (improves value cost best); [|exact Hcost].
      unfold cand_cost. simpl. lia. }
    intros a Ha. destruct (Hcover a Ha) as [(p & [<- | Hp] & He) | Hd].
    + destruct (index_None solution) as [i|] eqn:E.
      * destruct (extends_child _ _ He (proj1 (proj2 Ha)) i E)
          as (q & Hq & Hqa).
        left. exists q. split; [|exact Hqa]. apply in_or_app. now right.
      * right. rewrite <- (extends_complete _ _ He E). exact Hnew.
    + left. exists p. split; [|exact He]. apply in_or_app. now left.
    + right. now apply Hold.
  - split; [exact Hrest|]. split; [exact Hpriced|]. split; [exact Hcost|].
    intros a Ha. destruct (Hcover a Ha) as [(p & [<- | Hp] & He) | Hd].
    + pose proof (extends_cost_le _ _ He options costs_nonneg) as Hle.
      destruct Ha as (_ & _ & Ha). fold cost in Hle. lia.
    + left. eauto.
    + now right.
Qed.

(** What the assertion checks and what is returned, for a best solution
    left by a loop that kept the invariant. *)
Lemma search_inv_final (best : candidate) :
  search_inv ([], best) ->
  optimal options bound
    (fill (cand_node best), cand_value best, cand_cost best).
Proof.
  intros (_ & ((Hlen & Htern) & Hv & Hc) & Hcost & Hcover).
  cbn [fst snd] in *. unfold optimal, feasible.
  assert (Hl : length (fill (cand_node best)) = length options).
  { unfold fill. now rewrite length_map. }
  split.
  - split; [exact Hl|]. split; [now apply binary_fill|].
    rewrite compute_value_sum, compute_cost_sum
      by (rewrite length_map; lia).
    rewrite !sum_included_fill, <- Hv, <- Hc. auto.
  - intros a' v' c' (Hlen' & Hbin' & Hv' & Hc' & Hle').
    rewrite compute_value_sum in Hv' by (rewrite length_map; lia).
    rewrite compute_cost_sum in Hc' by (rewrite length_map; lia).
    injection Hv' as Hv'. injection Hc' as Hc'.
    destruct (Hcover a') as [(p & [] & _) | Hd].
    + unfold within. rewrite Hc'. auto.
    + unfold dominates in Hd. rewrite Hv', Hc' in Hd. lia.
Qed.

Lemma branch_and_bound_optimal :
  0 <= bound ->
  exists r, branch_and_bound options bound = Ok r /\ optimal options bound r.
Proof.
  intros Hb.
  destruct (bb_loop_invariant options bound search_inv search_inv_round
              (bb_init options) (search_inv_init Hb))
    as (k & best & _ & _ & Hloop & Hinv).
  unfold bb_init in Hloop. cbn [fst snd] in Hloop.
  unfold branch_and_bound. cbv zeta. rewrite Hloop. cbn [bind].
  pose proof (search_inv_final best Hinv) as Hopt.
  destruct Hinv as (_ & _ & Hcost & _). cbn [snd] in Hcost.
  replace (cand_cost best <=? bound) with true by lia.
  eexists. split; [reflexivity | exact Hopt].
Qed.

(** The best solution is within the bound after any number of rounds. *)
Lemma bb_rounds_feasible (k : nat) :
  0 <= bound ->
  exists st, bb_rounds options bound k (bb_init options) = Ok st /\
             cand_cost (snd st) <= bound.
Proof.
  intros Hb.
  destruct (bb_rounds_invariant options bound search_inv search_inv_round
              k (bb_init options) (search_inv_init Hb)) as (st & Hr & Hi).
  exists st. split; [exact Hr|]. apply Hi.
Qed.

End Search.

(** ** The enumeration and the loop of [brute_force] *)

Lemma product01_spec (n : nat) (a : list Z) :
  In a (product01 n) <-> length a = n /\ binary a.
Proof.
  revert a. induction n as [|n IH]; intros a; simpl.
  - split.
    + intros [<- | []]. split; [reflexivity | constructor].
    + intros [Hlen _]. left. destruct a; [reflexivity | discriminate].
  - rewrite app_nil_r, in_app_iff, !in_map_iff. split.
    + intros [(b & <- & Hb) | (b & <- & Hb)]; apply IH in Hb;
        destruct Hb as [Hlen Hbin]; simpl;
        (split; [now rewrite Hlen | constructor; auto]).
    + intros [Hlen Hbin]. destruct a as [|x a]; [discriminate|].
      apply Forall_cons_iff in Hbin. destruct Hbin as [Hx Hbin].
      assert (Ha : In a (product01 n)).
      { apply IH. split; [simpl in Hlen; lia | exact Hbin]. }
      destruct Hx as [-> | ->]; [left | right]; exists a; auto.
Qed.

Lemma ternary_map_Some (a : list Z) : binary a -> ternary (map Some a).
Proof.
  unfold binary, ternary. intros H. apply Forall_map.
  revert H. apply Forall_impl. intros x [-> | ->]; auto.
Qed.

Lemma bf_step_sized (options : list item) (bound : Z) (best : candidate)
  (a : list Z) :
  length a = length options ->
  bf_step options bound best a =
  Ok (if bf_improves bound (sum_included fst (map Some a) options)
           (sum_included snd (map Some a) options) best
      then (map Some a, sum_included fst (map Some a) options,
            sum_included snd (map Some a) options)
      else best).
Proof.
  intros Hlen. unfold bf_step.
  rewrite compute_cost_sum, compute_value_sum by (rewrite length_map; lia).
  cbn [bind].
  destruct (bf_improves bound _ _ best); reflexivity.
Qed.

Section BruteForce.

Variables (options : list item) (bound : Z).

(** The best solution is priced and within the bound. *)
Definition bf_inv (best : candidate) : Prop :=
  priced options best /\ cand_cost best <= bound.

Lemma bf_step_inv (best : candidate) (a : list Z) :
  length a = length options -> binary a -> bf_inv best ->
  exists best',
    bf_step options bound best a = Ok best' /\ bf_inv best' /\
    (forall v c, dominates best v c -> dominates best' v c) /\
    (sum_included snd (map Some a) options <= bound ->
     dominates best' (sum_included fst (map Some a) options)
       (sum_included snd (map Some a) options)).
Proof.
  intros Hlen Hbin [Hpriced Hcost].
  rewrite (bf_step_sized _ _ _ _ Hlen).
  eexists. split; [reflexivity|].
  set (v := sum_included fst (map Some a) options).
  set (c := sum_included snd (map Some a) options).
  destruct best as [[q bv] bc].
  unfold bf_inv, bf_improves, dominates, cand_value, cand_cost in *.
  cbn [fst snd] in *.
  destruct ((c <=? bound) && (v >? bv) || (v =? bv) && (c <? bc)) eqn:E;
    cbn [fst snd].
  - split; [split|split].
    + unfold priced, cand_node, cand_value, cand_cost. cbn [fst snd].
      split; [|auto]. split; [now rewrite length_map|].
      now apply ternary_map_Some.
    + lia.
    + intros v' c'. lia.
    + lia.
  - split; [split|split].
    + exact Hpriced.
    + exact Hcost.
    + auto.
    + lia.
Qed.

Lemma bf_loop_inv (solutions : list (list Z)) :
  (forall a, In a solutions -> length a = length options /\ binary a) ->
  forall best, bf_inv best ->
    exists best',
      bf_loop options bound solutions best = Ok best' /\ bf_inv best' /\
      (forall v c, dominates best v c -> dominates best' v c) /\
      (forall a, In a solutions ->
         sum_included snd (map Some a) options <= bound ->
         dominates best' (sum_included fst (map Some a) options)
           (sum_included snd (map Some a) options)).
Proof.
  induction solutions as [|a rest IH]; intros Hall best Hinv.
  - exists best. simpl. repeat split; auto; try apply Hinv. intros a [].
  - destruct (Hall a (or_introl eq_refl)) as [Hlen Hbin].
    destruct (bf_step_inv best a Hlen Hbin Hinv)
      as (best1 & Hstep & Hinv1 & Hmono1 & Hdom1).
    destruct (IH (fun b Hb => Hall b (or_intror Hb)) best1 Hinv1)
      as (best' & Hloop & Hinv' & Hmono & Hdom).
    exists best'. simpl. rewrite Hstep. cbn [bind].
    split; [exact Hloop|]. split; [exact Hinv'|]. split; [auto|].
    intros b [<- | Hb] Hc; auto.
Qed.

Lemma bf_inv_init : 0 <= bound ->
  bf_inv (repeat (Some 0) (length options), 0, 0).
Proof. intros Hb. split; [apply priced_init | exact Hb]. Qed.

(** The best solution is within the bound after any number of rounds. *)
Lemma bf_after_feasible (k : nat) :
  0 <= bound ->
  exists best, bf_after options bound k = Ok best /\ cand_cost best <= bound.
Proof.
  intros Hb. unfold bf_after.
  destruct (bf_loop_inv (firstn k (product01 (length options))))
    with (best := (repeat (Some 0) (length options), 0, 0))
    as (best' & Hloop & Hinv & _).
  - intros a Ha. apply product01_spec.
    rewrite <- (firstn_skipn k (product01 (length options))).
    apply in_or_app. now left.
  - now apply bf_inv_init.
  - exists best'. split; [exact Hloop | apply Hinv].
Qed.

Lemma brute_force_optimal :
  0 <= bound ->
  exists r, brute_force options bound = Ok r /\ optimal options bound r.
Proof.
  intros Hb.
  destruct (bf_loop_inv (product01 (length options)))
    with (best := (repeat (Some 0) (length options), 0, 0))
    as (best' & Hloop & Hinv & _ & Hdom).
  - intros a Ha. now apply product01_spec.
  - now apply bf_inv_init.
  - unfold brute_force. cbv zeta. rewrite Hloop. cbn [bind].
    destruct Hinv as [Hpriced Hcost].
    replace (cand_cost best' <=? bound) with true by lia.
    eexists. split; [reflexivity|].
    apply search_inv_final. unfold search_inv. cbn [fst snd].
    split; [constructor|]. split; [exact Hpriced|]. split; [exact Hcost|].
    intros a (Hlen & Hbin & Hc). right. apply Hdom; [|exact Hc].
    apply product01_spec. auto.
Qed.

End BruteForce.

(** ** A bound below zero *)

Section NegativeBound.

Variables (options : list item) (bound : Z).
Hypothesis costs_nonneg : nonneg_costs options.
Hypothesis bound_neg : bound < 0.

(** No node is within the bound, so the best solution never changes. *)
Definition stuck (st : state) : Prop :=
  Forall (good_node (length options)) (fst st) /\
  snd st = (repeat (Some 0) (length options), 0, 0).

Lemma stuck_round (st : state) :
  stuck st -> fst st <> [] ->
  exists st', bb_round options bound st = Ok st' /\ stuck st'.
Proof.
  intros [Hgood Hbest] Hne.
  destruct st as [[|solution rest] best]; [easy|]. cbn [fst snd] in *.
  apply Forall_cons_iff in Hgood. destruct Hgood as [[Hlen _] Hrest].
  rewrite (bb_round_good _ _ _ _ _ Hlen).
  pose proof (sum_included_nonneg solution options costs_nonneg) as Hc.
  replace (sum_included snd solution options <=? bound) with false by lia.
  eexists. split; [reflexivity|]. split; assumption.
Qed.

Lemma branch_and_bound_negative :
  branch_and_bound options bound = Raise AssertionError.
Proof.
  destruct (bb_loop_invariant options bound stuck stuck_round
              (bb_init options)) as (k & best & _ & _ & Hloop & _ & Hbest).
  { split; [apply expand_branches_good, good_repeat_None | reflexivity]. }
  unfold bb_init in Hloop. cbn [fst snd] in Hloop, Hbest.
  unfold branch_and_bound. cbv zeta. rewrite Hloop, Hbest. cbn [bind].
  unfold cand_cost. cbn [snd].
  replace (0 <=? bound) with false by lia. reflexivity.
Qed.

Lemma bf_loop_negative (solutions : list (list Z)) :
  (forall a, In a solutions -> length a = length options) ->
  bf_loop options bound solutions (repeat (Some 0) (length options), 0, 0)
  = Ok (repeat (Some 0) (length options), 0, 0).
Proof.
  induction solutions as [|a rest IH]; intros Hall; [reflexivity|].
  simpl. rewrite (bf_step_sized _ _ _ _ (Hall a (or_introl eq_refl))).
  pose proof (sum_included_nonneg (map Some a) options costs_nonneg) as Hc.
  unfold bf_improves, cand_value, cand_cost. cbn [fst snd bind].
  replace (sum_included snd (map Some a) options <=? bound) with false
    by lia.
  replace (sum_included snd (map Some a) options <? 0) with false by lia.
  rewrite andb_false_r. cbn [andb orb].
  apply IH. intros b Hb. apply Hall. now right.
Qed.

Lemma brute_force_negative :
  brute_force options bound = Raise AssertionError.
Proof.
  unfold brute_force. cbv zeta. rewrite bf_loop_negative.
  - cbn [bind]. unfold cand_cost. cbn [snd].
    replace (0 <=? bound) with false by lia. reflexivity.
  - intros a Ha. now apply product01_spec in Ha.
Qed.

End NegativeBound.

(** ** The two solvers compared *)

(** Two optimal results have the same value and the same cost. *)
Lemma optimal_unique (options : list item) (bound : Z)
  (a1 a2 : list Z) (v1 v2 c1 c2 : Z) :
  optimal options bound (a1, v1, c1) -> optimal options bound (a2, v2, c2) ->
  v1 = v2 /\ c1 = c2.
Proof.
  intros [F1 O1] [F2 O2].
  destruct (O1 _ _ _ F2) as [Hv21 Hc21].
  destruct (O2 _ _ _ F1) as [Hv12 Hc12].
  assert (Hv : v1 = v2) by lia.
  split; [exact Hv|]. specialize (Hc21 (eq_sym Hv)). specialize (Hc12 Hv). lia.
Qed.

(** What a caller sees of a call when the assignment is left aside: the
    pair (value, cost) that is returned, or the exception. *)
Definition outcome (r : result (list Z * Z * Z)) : result (Z * Z) :=
  match r with
  | Ok (_, v, c) => Ok (v, c)
  | Raise e => Raise e
  end.

Lemma solvers_agree_from_zero (options : list item) (bound : Z) :
  nonneg_items options -> 0 <= bound ->
  exists (a1 a2 : list Z) (v c : Z),
    branch_and_bound options bound = Ok (a1, v, c) /\
    brute_force options bound = Ok (a2, v, c).
Proof.
  intros Hitems Hb.
  destruct (branch_and_bound_optimal options bound
              (nonneg_items_costs _ Hitems) Hb) as ([[a1 v1] c1] & E1 & O1).
  destruct (brute_force_optimal options bound Hb) as ([[a2 v2] c2] & E2 & O2).
  destruct (optimal_unique _ _ _ _ _ _ _ _ O1 O2) as [-> ->].
  exists a1, a2, v2, c2. auto.
Qed.

(** C1: for items whose values and costs are not negative, the two
    solvers end alike for every bound, with the same pair (value, cost)
    or the same exception.  For a bound of at least 0 both return, and
    they return the same value and the same cost, as the claim says.  For
    a bound below 0 neither returns a pair: both raise [AssertionError],
    which is where the code leaves the claim. *)
Theorem solvers_agree (options : list item) (bound : Z) :
  nonneg_items options ->
  outcome (branch_and_bound options bound)
  = outcome (brute_force options bound) /\
  (0 <= bound ->
   exists (a1 a2 : list Z) (v c : Z),
     branch_and_bound options bound = Ok (a1, v, c) /\
     brute_force options bound = Ok (a2, v, c)) /\
  (bound < 0 ->
   branch_and_bound options bound = Raise AssertionError /\
   brute_force options bound = Raise AssertionError).
Proof.
  intros Hitems.
  pose proof (nonneg_items_costs _ Hitems) as Hcosts.
  assert (Hneg : bound < 0 ->
                 branch_and_bound options bound = Raise AssertionError /\
                 brute_force options bound = Raise AssertionError).
  { intros Hb. split.
    - now apply branch_and_bound_negative.
    - now apply brute_force_negative. }
  split; [|split; [now apply solvers_agree_from_zero | exact Hneg]].
  destruct (Z_lt_le_dec bound 0) as [Hb|Hb].
  - destruct (Hneg Hb) as [-> ->]. reflexivity.
  - destruct (solvers_agree_from_zero options bound Hitems Hb)
      as (a1 & a2 & v & c & -> & ->). reflexivity.
Qed.

Lemma solvers_agree_witness :
  nonneg_items [(10, 5); (7, 3)] /\ -1 < 0 /\
  outcome (branch_and_bound [(10, 5); (7, 3)] (-1))
  = outcome (brute_force [(10, 5); (7, 3)] (-1)) /\
  branch_and_bound [(10, 5); (7, 3)] (-1) = Raise AssertionError /\
  brute_force [(10, 5); (7, 3)] (-1) = Raise AssertionError.
Proof.
  assert (Hitems : nonneg_items [(10, 5); (7, 3)]).
  { repeat constructor; simpl; lia. }
  assert (Hb : -1 < 0) by lia.
  split; [exact Hitems|]. split; [exact Hb|].
  destruct (solvers_agree [(10, 5); (7, 3)] (-1) Hitems) as (H1 & _ & H2).
  split; [exact H1 | exact (H2 Hb)].
Defined.

(** C4 at the input [[(10, 5)]], bound -1: both solvers raise
    [AssertionError] where the claim has them return the assignment
    [[0]] with value 0 and cost 0. *)
Theorem negative_bound_raises :
  branch_and_bound [(10, 5)] (-1) = Raise AssertionError /\
  brute_force [(10, 5)] (-1) = Raise AssertionError.
Proof. split; reflexivity. Qed.

(** The total value and the total cost of the items that the complete
    assignment [a] takes. *)
Definition total_value_of (options : list item) (a : list Z) : Z :=
  sum_included fst (map Some a) options.

Definition total_cost_of (options : list item) (a : list Z) : Z :=
  sum_included snd (map Some a) options.

(** [(a, v, c)] is a best choice: a complete assignment of zeros and ones
    whose value [v] and cost [c] are what the evaluator gives for it and
    are the totals of the items taken, whose cost is within the bound,
    whose value is the greatest total value of an assignment with a total
    cost within the bound, and whose cost is the least total cost of such
    an assignment of that value. *)
Definition best_choice (options : list item) (bound : Z)
  (a : list Z) (v c : Z) : Prop :=
  length a = length options /\ binary a /\
  compute_value (map Some a) options = Ok v /\
  compute_cost (map Some a) options = Ok c /\
  v = total_value_of options a /\ c = total_cost_of options a /\
  c <= bound /\
  forall a', length a' = length options -> binary a' ->
    total_cost_of options a' <= bound ->
    total_value_of options a' <= v /\
    (total_value_of options a' = v -> c <= total_cost_of options a').

Lemma optimal_best_choice (options : list item) (bound : Z)
  (a : list Z) (v c : Z) :
  optimal options bound (a, v, c) -> best_choice options bound a v c.
Proof.
  intros [(Hlen & Hbin & Hv & Hc & Hle) Hopt].
  unfold best_choice, total_value_of, total_cost_of.
  pose proof Hv as Hv'. pose proof Hc as Hc'.
  rewrite compute_value_sum in Hv' by (rewrite length_map; lia).
  rewrite compute_cost_sum in Hc' by (rewrite length_map; lia).
  injection Hv' as Hv'. injection Hc' as Hc'.
  repeat (split; [solve [auto]|]).
  intros a' Hlen' Hbin' Hle'.
  apply (Hopt a'). unfold feasible.
  rewrite compute_value_sum, compute_cost_sum by (rewrite length_map; lia).
  auto.
Qed.

(** C2: for items whose values and costs are not negative and a bound of
    at least 0, each solver returns a complete assignment of zeros and
    ones whose cost is within the bound, whose returned value and cost
    are the evaluator's outputs for it and the totals of the items it
    takes, whose value is the greatest total value over all assignments
    of zeros and ones with a total cost within the bound, and whose cost
    is the least among the assignments within the bound of that value. *)
Theorem solvers_optimal (options : list item) (bound : Z) :
  nonneg_items options -> 0 <= bound ->
  exists (a1 a2 : list Z) (v1 v2 c1 c2 : Z),
    branch_and_bound options bound = Ok (a1, v1, c1) /\
    best_choice options bound a1 v1 c1 /\
    brute_force options bound = Ok (a2, v2, c2) /\
    best_choice options bound a2 v2 c2.
Proof.
  intros Hitems Hb.
  destruct (branch_and_bound_optimal options bound
              (nonneg_items_costs _ Hitems) Hb) as ([[a1 v1] c1] & E1 & O1).
  destruct (brute_force_optimal options bound Hb) as ([[a2 v2] c2] & E2 & O2).
  exists a1, a2, v1, v2, c1, c2.
  split; [exact E1|]. split; [now apply optimal_best_choice|].
  split; [exact E2|]. now apply optimal_best_choice.
Qed.

Lemma solvers_optimal_witness :
  nonneg_items [(10, 5); (7, 3); (4, 4)] /\ 0 <= 8 /\
  exists (a1 a2 : list Z) (v1 v2 c1 c2 : Z),
    branch_and_bound [(10, 5); (7, 3); (4, 4)] 8 = Ok (a1, v1, c1) /\
    best_choice [(10, 5); (7, 3); (4, 4)] 8 a1 v1 c1 /\
    brute_force [(10, 5); (7, 3); (4, 4)] 8 = Ok (a2, v2, c2) /\
    best_choice [(10, 5); (7, 3); (4, 4)] 8 a2 v2 c2.
Proof.
  assert (Hitems : nonneg_items [(10, 5); (7, 3); (4, 4)]).
  { repeat constructor; simpl; lia. }
  assert (Hb : 0 <= 8) by lia.
  split; [exact Hitems|]. split; [exact Hb|].
  exact (solvers_optimal [(10, 5); (7, 3); (4, 4)] 8 Hitems Hb).
Defined.

(** C3: for items whose values and costs are not negative and a bound of
    at least 0, both solvers return, with a cost within the bound, and
    the cost of the best solution is within the bound after any number of
    rounds of either loop. *)
Theorem solvers_feasible (options : list item) (bound : Z) :
  nonneg_items options -> 0 <= bound ->
  (exists (a : list Z) (v c : Z),
      branch_and_bound options bound = Ok (a, v, c) /\ c <= bound) /\
  (exists (a : list Z) (v c : Z),
      brute_force options bound = Ok (a, v, c) /\ c <= bound) /\
  (forall k, exists st,
      bb_rounds options bound k (bb_init options) = Ok st /\
      cand_cost (snd st) <= bound) /\
  (forall k, exists best,
      bf_after options bound k = Ok best /\ cand_cost best <= bound).
Proof.
  intros Hitems Hb.
  pose proof (nonneg_items_costs _ Hitems) as Hcosts.
  destruct (branch_and_bound_optimal options bound Hcosts Hb)
    as ([[a1 v1] c1] & E1 & (_ & _ & _ & _ & H1) & _).
  destruct (brute_force_optimal options bound Hb)
    as ([[a2 v2] c2] & E2 & (_ & _ & _ & _ & H2) & _).
  split; [exists a1, v1, c1; auto|].
  split; [exists a2, v2, c2; auto|].
  split; intros k.
  - now apply bb_rounds_feasible.
  - now apply bf_after_feasible.
Qed.

Lemma solvers_feasible_witness :
  nonneg_items [(10, 5); (7, 3); (4, 4)] /\ 0 <= 6 /\
  exists (a : list Z) (v c : Z),
    branch_and_bound [(10, 5); (7, 3); (4, 4)] 6 = Ok (a, v, c) /\ c <= 6.
Proof.
  assert (Hitems : nonneg_items [(10, 5); (7, 3); (4, 4)]).
  { repeat constructor; simpl; lia. }
  assert (Hb : 0 <= 6) by lia.
  split; [exact Hitems|]. split; [exact Hb|].
  exact (proj1 (solvers_feasible [(10, 5); (7, 3); (4, 4)] 6 Hitems Hb)).
Defined.

Lemma optimal_monotone (options : list item) (b1 b2 : Z)
  (a1 a2 : list Z) (v1 v2 c1 c2 : Z) :
  b1 <= b2 ->
  optimal options b1 (a1, v1, c1) -> optimal options b2 (a2, v2, c2) ->
  v1 <= v2.
Proof.
  intros Hb [(Hlen & Hbin & Hv & Hc & Hle) _] [_ O2].
  apply (O2 a1 v1 c1). unfold feasible. repeat split; auto. lia.
Qed.

(** C5: for items whose values and costs are not negative and bounds
    [0 <= b1 <= b2], the value that [branch_and_bound] returns for [b1] is
    at most the value it returns for [b2], and so for [brute_force]. *)
Theorem value_monotone (options : list item) (b1 b2 : Z) :
  nonneg_items options -> 0 <= b1 -> b1 <= b2 ->
  (exists (a1 a2 : list Z) (v1 v2 c1 c2 : Z),
      branch_and_bound options b1 = Ok (a1, v1, c1) /\
      branch_and_bound options b2 = Ok (a2, v2, c2) /\ v1 <= v2) /\
  (exists (a1 a2 : list Z) (v1 v2 c1 c2 : Z),
      brute_force options b1 = Ok (a1, v1, c1) /\
      brute_force options b2 = Ok (a2, v2, c2) /\ v1 <= v2).
Proof.
  intros Hitems H1 H12.
  pose proof (nonneg_items_costs _ Hitems) as Hcosts.
  assert (H2 : 0 <= b2) by lia.
  split.
  - destruct (branch_and_bound_optimal options b1 Hcosts H1)
      as ([[a1 v1] c1] & E1 & O1).
    destruct (branch_and_bound_optimal options b2 Hcosts H2)
      as ([[a2 v2] c2] & E2 & O2).
    exists a1, a2, v1, v2, c1, c2.
    split; [exact E1|]. split; [exact E2|].
    exact (optimal_monotone _ _ _ _ _ _ _ _ _ H12 O1 O2).
  - destruct (brute_force_optimal options b1 H1) as ([[a1 v1] c1] & E1 & O1).
    destruct (brute_force_optimal options b2 H2) as ([[a2 v2] c2] & E2 & O2).
    exists a1, a2, v1, v2, c1, c2.
    split; [exact E1|]. split; [exact E2|].
    exact (optimal_monotone _ _ _ _ _ _ _ _ _ H12 O1 O2).
Qed.

Lemma value_monotone_witness :
  nonneg_items [(10, 5); (7, 3); (4, 4)] /\ 0 <= 4 /\ 4 <= 9 /\
  exists (a1 a2 : list Z) (v1 v2 c1 c2 : Z),
    branch_and_bound [(10, 5); (7, 3); (4, 4)] 4 = Ok (a1, v1, c1) /\
    branch_and_bound [(10, 5); (7, 3); (4, 4)] 9 = Ok (a2, v2, c2) /\
    v1 <= v2.
Proof.
  assert (Hitems : nonneg_items [(10, 5); (7, 3); (4, 4)]).
  { repeat constructor; simpl; lia. }
  assert (H1 : 0 <= 4) by lia.
  assert (H2 : 4 <= 9) by lia.
  split; [exact Hitems|]. split; [exact H1|]. split; [exact H2|].
  exact (proj1 (value_monotone [(10, 5); (7, 3); (4, 4)] 4 9 Hitems H1 H2)).
Defined.

(** ** When no item fits *)

Lemma within_all_excluded (bound : Z) (a : list Z) :
  forall options : list item,
    nonneg_costs options -> Forall (fun o => bound < snd o) options ->
    length a = length options -> binary a ->
    sum_included snd (map Some a) options <= bound ->
    a = repeat 0 (length options).
Proof.
  induction a as [|x a IH]; intros [|o os] Hnn Hbig Hlen Hbin Hc;
    try discriminate; [reflexivity|].
  apply Forall_cons_iff in Hnn. destruct Hnn as [Ho Hos].
  apply Forall_cons_iff in Hbig. destruct Hbig as [Hbo Hbos].
  apply Forall_cons_iff in Hbin. destruct Hbin as [Hx Hbin].
  simpl map in Hc. rewrite sum_included_cons in Hc.
  pose proof (sum_included_nonneg (map Some a) os Hos) as Hrest.
  destruct Hx as [-> | ->]; simpl contribution in Hc; [|lia].
  simpl. f_equal. apply IH; auto; lia.
Qed.

Lemma optimal_all_excluded (options : list item) (bound : Z)
  (r : list Z * Z * Z) :
  nonneg_costs options -> Forall (fun o => bound < snd o) options ->
  optimal options bound r -> r = (repeat 0 (length options), 0, 0).
Proof.
  intros Hnn Hbig. destruct r as [[a v] c].
  intros [(Hlen & Hbin & Hv & Hc & Hle) _].
  rewrite compute_value_sum in Hv by (rewrite length_map; lia).
  rewrite compute_cost_sum in Hc by (rewrite length_map; lia).
  injection Hv as Hv. injection Hc as Hc.
  assert (Ha : a = repeat 0 (length options)).
  { apply (within_all_excluded bound); auto. lia. }
  rewrite Ha, map_repeat, sum_included_zeros in Hv, Hc.
  congruence.
Qed.

(** C8: for items whose values and costs are not negative and a bound of
    at least 0, when the cost of every item exceeds the bound both solvers
    return the assignment of zeros with value 0 and cost 0; and for no
    item at all both return the empty assignment with value 0 and cost 0. *)
Theorem nothing_fits (options : list item) (bound : Z) :
  nonneg_items options -> 0 <= bound ->
  (Forall (fun o => bound < snd o) options ->
   branch_and_bound options bound = Ok (repeat 0 (length options), 0, 0) /\
   brute_force options bound = Ok (repeat 0 (length options), 0, 0)) /\
  branch_and_bound [] bound = Ok ([], 0, 0) /\
  brute_force [] bound = Ok ([], 0, 0).
Proof.
  intros Hitems Hb.
  assert (H : forall opts, nonneg_costs opts ->
            Forall (fun o => bound < snd o) opts ->
            branch_and_bound opts bound = Ok (repeat 0 (length opts), 0, 0) /\
            brute_force opts bound = Ok (repeat 0 (length opts), 0, 0)).
  { intros opts Hnn Hbig.
    destruct (branch_and_bound_optimal opts bound Hnn Hb) as (r1 & E1 & O1).
    destruct (brute_force_optimal opts bound Hb) as (r2 & E2 & O2).
    rewrite (optimal_all_excluded _ _ _ Hnn Hbig O1) in E1.
    rewrite (optimal_all_excluded _ _ _ Hnn Hbig O2) in E2.
    auto. }
  split.
  - apply H. now apply nonneg_items_costs.
  - apply (H []); constructor.
Qed.

Lemma nothing_fits_witness :
  nonneg_items [(10, 5); (7, 6)] /\ 0 <= 4 /\
  Forall (fun o => 4 < snd o) [(10, 5); (7, 6)] /\
  branch_and_bound [(10, 5); (7, 6)] 4 = Ok ([0; 0], 0, 0) /\
  brute_force [(10, 5); (7, 6)] 4 = Ok ([0; 0], 0, 0).
Proof.
  assert (Hitems : nonneg_items [(10, 5); (7, 6)]).
  { repeat constructor; simpl; lia. }
  assert (Hb : 0 <= 4) by lia.
  assert (Hbig : Forall (fun o : item => 4 < snd o) [(10, 5); (7, 6)]).
  { repeat constructor; simpl; lia. }
  split; [exact Hitems|]. split; [exact Hb|]. split; [exact Hbig|].
  exact (proj1 (nothing_fits [(10, 5); (7, 6)] 4 Hitems Hb) Hbig).
Defined.

(** ** The second half of the test of [brute_force] *)

(** C10: in [brute_force], for items whose costs are not negative and a
    bound of at least 0, a solution taken by the second half of the test
    (same value, smaller cost) while the best solution is within the
    bound is itself within the bound; a round keeps the best solution
    within the bound whichever half takes the solution; the best solution
    is within the bound after any number of rounds, so that whatever the
    second half takes after any number of rounds is within the bound. *)
Theorem tie_break_feasible (options : list item) (bound : Z) :
  nonneg_costs options -> 0 <= bound ->
  (forall (best : candidate) (a : list Z) (v c : Z),
      cand_cost best <= bound ->
      compute_value (map Some a) options = Ok v ->
      compute_cost (map Some a) options = Ok c ->
      (v =? cand_value best) && (c <? cand_cost best) = true ->
      bf_step options bound best a = Ok (map Some a, v, c) /\ c <= bound) /\
  (forall (best best' : candidate) (a : list Z),
      cand_cost best <= bound ->
      bf_step options bound best a = Ok best' ->
      cand_cost best' <= bound) /\
  (forall k, exists best,
      bf_after options bound k = Ok best /\ cand_cost best <= bound) /\
  (forall (k : nat) (best : candidate) (a : list Z) (v c : Z),
      bf_after options bound k = Ok best ->
      compute_value (map Some a) options = Ok v ->
      compute_cost (map Some a) options = Ok c ->
      (v =? cand_value best) && (c <? cand_cost best) = true ->
      bf_step options bound best a = Ok (map Some a, v, c) /\ c <= bound).
Proof.
  intros _ Hb.
  assert (Htie : forall (best : candidate) (a : list Z) (v c : Z),
             cand_cost best <= bound ->
             compute_value (map Some a) options = Ok v ->
             compute_cost (map Some a) options = Ok c ->
             (v =? cand_value best) && (c <? cand_cost best) = true ->
             bf_step options bound best a = Ok (map Some a, v, c) /\
             c <= bound).
  { intros best a v c Hbest Hv Hc Htie.
    unfold bf_step, bf_improves. rewrite Hc, Hv. cbn [bind].
    rewrite Htie, orb_true_r. split; [reflexivity | lia]. }
  split; [exact Htie|]. split; [|split].
  - intros best best' a Hbest. unfold bf_step.
    destruct (compute_cost (map Some a) options) as [c|e]; cbn [bind];
      [|discriminate].
    destruct (compute_value (map Some a) options) as [v|e]; cbn [bind];
      [|discriminate].
    unfold bf_improves.
    destruct ((c <=? bound) && (v >? cand_value best)
              || (v =? cand_value best) && (c <? cand_cost best)) eqn:E;
      intros H; injection H as <-; [|exact Hbest].
    unfold cand_cost in *. cbn [snd]. lia.
  - intros k. now apply bf_after_feasible.
  - intros k best a v c Hk. apply Htie.
    destruct (bf_after_feasible options bound k Hb) as (best' & E & Hle).
    congruence.
Qed.

Lemma tie_break_feasible_witness :
  nonneg_costs [(10, 3); (10, 5)] /\ 0 <= 5 /\
  bf_after [(10, 3); (10, 5)] 5 2 = Ok ([Some 0; Some 1], 10, 5) /\
  (10 =? cand_value ([Some 0; Some 1], 10, 5))
  && (3 <? cand_cost ([Some 0; Some 1], 10, 5)) = true /\
  bf_step [(10, 3); (10, 5)] 5 ([Some 0; Some 1], 10, 5) [1; 0]
  = Ok ([Some 1; Some 0], 10, 3) /\
  3 <= 5.
Proof.
  assert (Hcosts : nonneg_costs [(10, 3); (10, 5)]).
  { repeat constructor; simpl; lia. }
  assert (Hb : 0 <= 5) by lia.
  assert (Hk : bf_after [(10, 3); (10, 5)] 5 2
               = Ok ([Some 0; Some 1], 10, 5)) by reflexivity.
  assert (Htie : (10 =? cand_value ([Some 0; Some 1], 10, 5))
                 && (3 <? cand_cost ([Some 0; Some 1], 10, 5)) = true)
    by reflexivity.
  split; [exact Hcosts|]. split; [exact Hb|]. split; [exact Hk|].
  split; [exact Htie|].
  exact (proj2 (proj2 (proj2 (tie_break_feasible [(10, 3); (10, 5)] 5
                                Hcosts Hb)))
           2%nat ([Some 0; Some 1], 10, 5) [1; 0] 10 3
           Hk eq_refl eq_refl Htie).
Defined.

(** ** The functions on small inputs *)

Example single_item_too_dear :
  branch_and_bound [(10, 5)] 4 = Ok ([0], 0, 0) /\
  brute_force [(10, 5)] 4 = Ok ([0], 0, 0).
Proof. split; reflexivity. Qed.

Example single_item_fits :
  branch_and_bound [(10, 5)] 5 = Ok ([1], 10, 5) /\
  brute_force [(10, 5)] 5 = Ok ([1], 10, 5).
Proof. split; reflexivity. Qed.

Example equal_values_least_cost :
  branch_and_bound [(10, 5); (0, 0); (10, 3)] 5 = Ok ([0; 0; 1], 10, 3) /\
  brute_force [(10, 5); (0, 0); (10, 3)] 5 = Ok ([0; 0; 1], 10, 3).
Proof. split; reflexivity. Qed.

Example first_tasks :
  branch_and_bound
    [(130, 9); (150, 12); (190, 20); (190, 23); (229, 27); (290, 33)] 75
  = Ok ([1; 1; 1; 0; 0; 1], 760, 74).
Proof. vm_compute. reflexivity. Qed.


(** * Further properties of the code *)

(** ** The evaluator on a solution longer than the item sequence *)

(** An entry equal to 1 sits at an index that [options] does not have. *)
Definition overrun (solution : node) (options : list item) : Prop :=
  exists i, (length options <= i)%nat /\ nth_error solution i = Some (Some 1).

Lemma is_one_true (x : option Z) : is_one x = true <-> x = Some 1.
Proof.
  destruct x as [v|]; simpl; [|split; discriminate].
  split; [intros H; f_equal; lia | intros [= ->]; reflexivity].
Qed.

Lemma sum_at_nil_shift (proj : item -> Z) (idx : list nat) :
  sum_at proj [] (map S idx) = sum_at proj [] idx.
Proof. destruct idx as [|[|i] idx]; reflexivity. Qed.

Lemma sum_included_nil_r (proj : item -> Z) (solution : node) :
  sum_included proj solution [] = 0.
Proof. destruct solution; reflexivity. Qed.

Lemma sum_at_in_range (proj : item -> Z) (solution : node) :
  forall options : list item,
    (forall i, nth_error solution i = Some (Some 1) ->
               (i < length options)%nat) ->
    sum_at proj options (chosen solution)
    = Ok (sum_included proj solution options).
Proof.
  induction solution as [|x s IH]; intros options H; [reflexivity|].
  rewrite chosen_cons. destruct options as [|o os].
  - destruct (is_one x) eqn:E.
    + apply is_one_true in E. subst x. specialize (H 0%nat eq_refl).
      simpl in H. lia.
    + rewrite sum_at_nil_shift, IH, !sum_included_nil_r; [reflexivity|].
      intros i Hi. specialize (H (S i) Hi). simpl in H. lia.
  - rewrite sum_included_cons, contribution_is_one.
    assert (Hs : sum_at proj os (chosen s) = Ok (sum_included proj s os)).
    { apply IH. intros i Hi. specialize (H (S i) Hi). simpl in H. lia. }
    destruct (is_one x); simpl; rewrite sum_at_shift, Hs; reflexivity.
Qed.

Lemma sum_at_overrun (proj : item -> Z) (solution : node) :
  forall options : list item,
    overrun solution options ->
    sum_at proj options (chosen solution) = Raise IndexError.
Proof.
  induction solution as [|x s IH]; intros options (i & Hi & Hn).
  - destruct i; discriminate.
  - rewrite chosen_cons. destruct options as [|o os].
    + destruct (is_one x) eqn:E; [reflexivity|].
      rewrite sum_at_nil_shift. apply IH.
      destruct i as [|j]; simpl in Hn.
      * injection Hn as ->. discriminate.
      * exists j. split; [simpl; lia | exact Hn].
    + destruct i as [|j]; simpl in Hi; [lia|]. simpl in Hn.
      assert (Hs : sum_at proj os (chosen s) = Raise IndexError).
      { apply IH. exists j. split; [lia | exact Hn]. }
      destruct (is_one x); simpl; rewrite sum_at_shift, Hs; reflexivity.
Qed.

(** X1: [compute_cost] and [compute_value] accept a solution of any
    length.  When every entry equal to 1 sits at an index of [options],
    they return the sums over these entries, whatever the two lengths;
    when an entry equal to 1 sits past the end of [options], both raise
    [IndexError]. *)
Theorem evaluator_out_of_range (solution : node) (options : list item) :
  ((forall i, nth_error solution i = Some (Some 1) ->
              (i < length options)%nat) ->
   compute_cost solution options = Ok (sum_included snd solution options) /\
   compute_value solution options = Ok (sum_included fst solution options)) /\
  (overrun solution options ->
   compute_cost solution options = Raise IndexError /\
   compute_value solution options = Raise IndexError).
Proof.
  split.
  - intros H. split; apply sum_at_in_range; exact H.
  - intros H. split; apply sum_at_overrun; exact H.
Qed.

Lemma evaluator_out_of_range_witness :
  overrun [Some 0; Some 1; Some 1] [(1, 2); (3, 4)] /\
  compute_cost [Some 0; Some 1; Some 1] [(1, 2); (3, 4)] = Raise IndexError /\
  compute_value [Some 0; Some 1; Some 1] [(1, 2); (3, 4)] = Raise IndexError.
Proof.
  assert (H : overrun [Some 0; Some 1; Some 1] [(1, 2); (3, 4)]).
  { exists 2%nat. split; [simpl; lia | reflexivity]. }
  split; [exact H|].
  exact (proj2 (evaluator_out_of_range _ _) H).
Defined.

(** ** The solvers on items of any sign *)

Lemma priced_feasible (options : list item) (bound : Z) (best : candidate) :
  priced options best -> cand_cost best <= bound ->
  feasible options bound (fill (cand_node best))
    (cand_value best) (cand_cost best).
Proof.
  intros ((Hlen & Htern) & Hv & Hc) Hcost. unfold feasible.
  assert (Hl : length (fill (cand_node best)) = length options).
  { unfold fill. now rewrite length_map. }
  split; [exact Hl|]. split; [now apply binary_fill|].
  rewrite compute_value_sum, compute_cost_sum by (rewrite length_map; lia).
  rewrite !sum_included_fill, <- Hv, <- Hc. auto.
Qed.

Section AnyItems.

Variables (options : list item) (bound : Z).

(** What the loop of [branch_and_bound] keeps without any assumption on
    the items: nodes of the right shape in the queue, a priced best
    solution, and a best solution within a bound that is not negative. *)
Definition kept (st : state) : Prop :=
  Forall (good_node (length options)) (fst st) /\
  priced options (snd st) /\
  (0 <= bound -> cand_cost (snd st) <= bound).

Lemma kept_init : kept (bb_init options).
Proof.
  unfold kept, bb_init. cbn [fst snd].
  split; [apply expand_branches_good, good_repeat_None|].
  split; [apply priced_init|]. unfold cand_cost. cbn [snd]. auto.
Qed.

Lemma kept_round (st : state) :
  kept st -> fst st <> [] ->
  exists st', bb_round options bound st = Ok st' /\ kept st'.
Proof.
  intros (Hgood & Hpriced & Hcost) Hne.
  destruct st as [[|solution rest] best]; [easy|]. cbn [fst snd] in *.
  apply Forall_cons_iff in Hgood. destruct Hgood as [Hsol Hrest].
  rewrite (bb_round_good _ _ _ _ _ (proj1 Hsol)).
  eexists. split; [reflexivity|].
  destruct (sum_included snd solution options <=? bound) eqn:Hfeas;
    unfold kept; cbn [fst snd]; [|auto].
  split; [apply Forall_app; split;
            [exact Hrest | now apply expand_branches_good]|].
  destruct (improves _ _ best); [|auto].
  split; [|unfold cand_cost; cbn [snd]; lia].
  unfold priced, cand_node, cand_value, cand_cost. cbn [fst snd]. auto.
Qed.

(** The loop returns a priced best solution, and the function returns it
    or raises on its assertion. *)
Lemma branch_and_bound_outcome :
  exists best : candidate,
    priced options best /\ (0 <= bound -> cand_cost best <= bound) /\
    branch_and_bound options bound =
    if cand_cost best <=? bound
    then Ok (fill (cand_node best), cand_value best, cand_cost best)
    else Raise AssertionError.
Proof.
  destruct (bb_loop_invariant options bound kept kept_round
              (bb_init options) kept_init)
    as (k & best & _ & _ & Hloop & _ & Hpriced & Hcost).
  unfold bb_init in Hloop. cbn [fst snd] in Hloop, Hpriced, Hcost.
  exists best. split; [exact Hpriced|]. split; [exact Hcost|].
  unfold branch_and_bound. cbv zeta. rewrite Hloop. reflexivity.
Qed.

Lemma bf_loop_priced (solutions : list (list Z)) :
  (forall a, In a solutions -> length a = length options /\ binary a) ->
  forall best, priced options best ->
    exists best',
      bf_loop options bound solutions best = Ok best' /\ priced options best'.
Proof.
  induction solutions as [|a rest IH]; intros Hall best Hpriced.
  - exists best. auto.
  - destruct (Hall a (or_introl eq_refl)) as [Hlen Hbin].
    simpl. rewrite (bf_step_sized _ _ _ _ Hlen). cbn [bind].
    apply IH; [intros b Hb; apply Hall; now right|].
    destruct (bf_improves bound _ _ best); [|exact Hpriced].
    unfold priced, cand_node, cand_value, cand_cost. cbn [fst snd].
    split; [|auto]. split; [now rewrite length_map|].
    now apply ternary_map_Some.
Qed.

Lemma brute_force_outcome :
  exists best : candidate,
    priced options best /\
    brute_force options bound =
    if cand_cost best <=? bound
    then Ok (fill (cand_node best), cand_value best, cand_cost best)
    else Raise AssertionError.
Proof.
  destruct (bf_loop_priced (product01 (length options)))
    with (best := (repeat (Some 0) (length options), 0, 0))
    as (best & Hloop & Hpriced).
  - intros a Ha. now apply product01_spec.
  - apply priced_init.
  - exists best. split; [exact Hpriced|].
    unfold brute_force. cbv zeta. rewrite Hloop. reflexivity.
Qed.

End AnyItems.

(** X2: whatever the items and the bound, values and costs of any sign
    included, neither solver raises [IndexError]: a call returns or fails
    on the final assertion. *)
Theorem solvers_never_index_error (options : list item) (bound : Z) :
  branch_and_bound options bound <> Raise IndexError /\
  brute_force options bound <> Raise IndexError.
Proof.
  destruct (branch_and_bound_outcome options bound) as (b1 & _ & _ & E1).
  destruct (brute_force_outcome options bound) as (b2 & _ & E2).
  rewrite E1, E2.
  split; [destruct (cand_cost b1 <=? bound) | destruct (cand_cost b2 <=? bound)];
    discriminate.
Qed.

(** X3: whatever the items and the bound, a result that a solver returns
    is a complete assignment of zeros and ones, as long as the item
    sequence, which the evaluator prices at the returned value and cost,
    with the cost within the bound. *)
Theorem returned_results_sound (options : list item) (bound : Z)
  (a : list Z) (v c : Z) :
  (branch_and_bound options bound = Ok (a, v, c) ->
   feasible options bound a v c) /\
  (brute_force options bound = Ok (a, v, c) ->
   feasible options bound a v c).
Proof.
  destruct (branch_and_bound_outcome options bound) as (b1 & P1 & _ & E1).
  destruct (brute_force_outcome options bound) as (b2 & P2 & E2).
  rewrite E1, E2. split.
  - destruct (cand_cost b1 <=? bound) eqn:E; [|discriminate].
    intros [= <- <- <-]. apply priced_feasible; [exact P1 | lia].
  - destruct (cand_cost b2 <=? bound) eqn:E; [|discriminate].
    intros [= <- <- <-]. apply priced_feasible; [exact P2 | lia].
Qed.

Lemma returned_results_sound_witness :
  branch_and_bound [(5, -3); (2, 1)] (-1) = Ok ([1; 1], 7, -2) /\
  feasible [(5, -3); (2, 1)] (-1) [1; 1] 7 (-2).
Proof.
  assert (E : branch_and_bound [(5, -3); (2, 1)] (-1) = Ok ([1; 1], 7, -2))
    by reflexivity.
  split; [exact E|].
  exact (proj1 (returned_results_sound _ _ _ _ _) E).
Defined.





(** ** The two acceptance tests *)



(** ** The best solution from round to round *)

Lemma dominates_refl (best : candidate) :
  dominates best (cand_value best) (cand_cost best).
Proof. unfold dominates. lia. Qed.

Lemma dominates_trans (b1 b2 : candidate) (v c : Z) :
  dominates b2 (cand_value b1) (cand_cost b1) -> dominates b1 v c ->
  dominates b2 v c.
Proof. unfold dominates. lia. Qed.

Lemma bb_round_dominates (options : list item) (bound : Z) (st st' : state) :
  bb_round options bound st = Ok st' ->
  dominates (snd st') (cand_value (snd st)) (cand_cost (snd st)).
Proof.
  destruct st as [[|solution rest] best]; unfold bb_round; cbn [fst snd].
  - intros [= <-]. apply dominates_refl.
  - destruct (compute_cost solution options) as [cost|e]; cbn [bind];
      [|discriminate].
    destruct (compute_value solution options) as [value|e]; cbn [bind];
      [|discriminate].
    destruct (cost <=? bound); intros [= <-]; cbn [snd].
    + apply (improves_dominates solution value cost best), dominates_refl.
    + apply dominates_refl.
Qed.

Lemma bf_step_dominates (options : list item) (bound : Z)
  (best best' : candidate) (a : list Z) :
  bf_step options bound best a = Ok best' ->
  dominates best' (cand_value best) (cand_cost best).
Proof.
  unfold bf_step.
  destruct (compute_cost (map Some a) options) as [c|e]; cbn [bind];
    [|discriminate].
  destruct (compute_value (map Some a) options) as [v|e]; cbn [bind];
    [|discriminate].
  unfold bf_improves.
  destruct ((c <=? bound) && (v >? cand_value best)
            || (v =? cand_value best) && (c <? cand_cost best)) eqn:E;
    intros [= <-]; [|apply dominates_refl].
  unfold dominates, cand_value, cand_cost in *. cbn [fst snd]. lia.
Qed.

Lemma bb_rounds_dominates (options : list item) (bound : Z) (k : nat) :
  forall st st' : state,
    bb_rounds options bound k st = Ok st' ->
    dominates (snd st') (cand_value (snd st)) (cand_cost (snd st)).
Proof.
  induction k as [|k IH]; intros st st'; simpl.
  - intros [= <-]. apply dominates_refl.
  - destruct (bb_round options bound st) as [st1|e] eqn:E; cbn [bind];
      [|discriminate].
    intros H. apply (dominates_trans (snd st1)); [now apply IH|].
    now apply (bb_round_dominates options bound).
Qed.

Lemma bf_loop_dominates (options : list item) (bound : Z)
  (solutions : list (list Z)) :
  forall best best' : candidate,
    bf_loop options bound solutions best = Ok best' ->
    dominates best' (cand_value best) (cand_cost best).
Proof.
  induction solutions as [|a rest IH]; intros best best'; simpl.
  - intros [= <-]. apply dominates_refl.
  - destruct (bf_step options bound best a) as [best1|e] eqn:E; cbn [bind];
      [|discriminate].
    intros H. apply (dominates_trans best1); [now apply IH|].
    now apply (bf_step_dominates options bound _ _ a).
Qed.

(** X7: in both loops the best solution only gets better, whatever the
    items and the bound: after any number of rounds its value is not
    smaller than before, and at an equal value its cost is not greater. *)
Theorem best_never_worsens (options : list item) (bound : Z) :
  (forall (k : nat) (st st' : state),
      bb_rounds options bound k st = Ok st' ->
      dominates (snd st') (cand_value (snd st)) (cand_cost (snd st))) /\
  (forall (solutions : list (list Z)) (best best' : candidate),
      bf_loop options bound solutions best = Ok best' ->
      dominates best' (cand_value best) (cand_cost best)).
Proof.
  split.
  - intros k. apply bb_rounds_dominates.
  - intros solutions. apply bf_loop_dominates.
Qed.

Lemma best_never_worsens_witness :
  bf_loop [(10, 5); (10, 3)] 5 [[0; 1]; [1; 0]] ([Some 1; Some 1], 7, 4)
  = Ok ([Some 0; Some 1], 10, 3) /\
  dominates ([Some 0; Some 1], 10, 3) 7 4.
Proof.
  assert (E : bf_loop [(10, 5); (10, 3)] 5 [[0; 1]; [1; 0]]
                ([Some 1; Some 1], 7, 4) = Ok ([Some 0; Some 1], 10, 3))
    by reflexivity.
  split; [exact E|].
  exact (proj2 (best_never_worsens [(10, 5); (10, 3)] 5) _ _ _ E).
Defined.

(** ** A bound below zero, in general *)

(** X8: for items whose costs are not negative and any bound below 0,
    both solvers raise [AssertionError]: no node is within the bound, the
    best solution stays the initial one of cost 0, and the assertion
    fails on it. *)
Theorem negative_bound_always_raises (options : list item) (bound : Z) :
  nonneg_costs options -> bound < 0 ->
  branch_and_bound options bound = Raise AssertionError /\
  brute_force options bound = Raise AssertionError.
Proof.
  intros Hnn Hb. split.
  - now apply branch_and_bound_negative.
  - now apply brute_force_negative.
Qed.

Lemma negative_bound_always_raises_witness :
  nonneg_costs [(4, 0); (-2, 6)] /\ -3 < 0 /\
  branch_and_bound [(4, 0); (-2, 6)] (-3) = Raise AssertionError /\
  brute_force [(4, 0); (-2, 6)] (-3) = Raise AssertionError.
Proof.
  assert (Hnn : nonneg_costs [(4, 0); (-2, 6)]).
  { repeat constructor; simpl; lia. }
  assert (Hb : -3 < 0) by lia.
  split; [exact Hnn|]. split; [exact Hb|].
  exact (negative_bound_always_raises [(4, 0); (-2, 6)] (-3) Hnn Hb).
Defined.

(** ** The number of rounds when nothing is pruned *)

(** The sum of all costs. *)
Definition total_cost (options : list item) : Z :=
  fold_right Z.add 0 (map snd options).

Lemma sum_included_le_total (p : node) :
  forall options, nonneg_costs options ->
    sum_included snd p options <= total_cost options.
Proof.
  induction p as [|x p IH]; intros options H.
  - unfold sum_included. simpl. unfold total_cost.
    induction H as [|o os Ho Hos IHos]; simpl; lia.
  - destruct options as [|o os]; [rewrite sum_included_nil_r; reflexivity|].
    apply Forall_cons_iff in H. destruct H as [Ho Hos].
    specialize (IH os Hos). rewrite sum_included_cons, contribution_is_one.
    unfold total_cost in *. simpl. destruct (is_one x); lia.
Qed.

Lemma index_None_unset (p : node) : index_None p = None -> unset p = 0%nat.
Proof.
  intros H. destruct (unset p) as [|k] eqn:E; [reflexivity|].
  destruct (unset_pos_index p) as [i Hi]; [lia | congruence].
Qed.

(** A node weighs one more than its children together. *)
Lemma expand_branches_weight_exact (p : node) :
  (frontier_weight (expand_branches p) + 1 = weight p)%nat.
Proof.
  unfold expand_branches. destruct (index_None p) as [i|] eqn:E.
  - unfold frontier_weight, weight. simpl.
    pose proof (unset_set_nth p i 0 E) as H0.
    pose proof (unset_set_nth p i 1 E) as H1.
    rewrite <- H0. injection (eq_trans H1 (eq_sym H0)) as ->.
    set (k := unset (set_nth i (Some 0) p)).
    assert (2 ^ k <> 0)%nat by (apply Nat.pow_nonzero; lia).
    rewrite !Nat.pow_succ_r'. lia.
  - unfold weight. rewrite (index_None_unset p E). reflexivity.
Qed.

Lemma frontier_weight_zero (branches : list node) :
  frontier_weight branches = 0%nat <-> branches = [].
Proof.
  split; [|intros ->; reflexivity].
  destruct branches as [|p rest]; [reflexivity|].
  pose proof (weight_pos p). unfold frontier_weight. simpl. lia.
Qed.

Section NoPruning.

Variables (options : list item) (bound : Z).
Hypothesis costs_nonneg : nonneg_costs options.
Hypothesis all_fit : total_cost options <= bound.

Lemma full_round (st : state) :
  Forall (good_node (length options)) (fst st) -> fst st <> [] ->
  exists st',
    bb_round options bound st = Ok st' /\
    Forall (good_node (length options)) (fst st') /\
    (frontier_weight (fst st') + 1 = frontier_weight (fst st))%nat.
Proof.
  intros Hgood Hne.
  destruct st as [[|solution rest] best]; [easy|]. cbn [fst snd] in *.
  apply Forall_cons_iff in Hgood. destruct Hgood as [Hsol Hrest].
  rewrite (bb_round_good _ _ _ _ _ (proj1 Hsol)).
  pose proof (sum_included_le_total solution options costs_nonneg) as Hle.
  replace (sum_included snd solution options <=? bound) with true by lia.
  eexists. split; [reflexivity|]. cbn [fst]. split.
  - apply Forall_app. split; [exact Hrest | now apply expand_branches_good].
  - rewrite frontier_weight_app.
    pose proof (expand_branches_weight_exact solution) as Hw.
    unfold frontier_weight in *. simpl. lia.
Qed.

Lemma full_rounds (k : nat) :
  forall st,
    Forall (good_node (length options)) (fst st) ->
    (k <= frontier_weight (fst st))%nat ->
    exists st',
      bb_rounds options bound k st = Ok st' /\
      (frontier_weight (fst st') + k = frontier_weight (fst st))%nat.
Proof.
  induction k as [|k IH]; intros st Hgood Hk.
  - exists st. split; [reflexivity | lia].
  - assert (Hne : fst st <> []).
    { intros E. rewrite E in Hk. unfold frontier_weight in Hk. simpl in Hk.
      lia. }
    destruct (full_round st Hgood Hne) as (st1 & R & Hgood1 & Hw).
    destruct (IH st1 Hgood1 ltac:(lia)) as (st' & Hr & Hw').
    exists st'. simpl. rewrite R. cbn [bind]. split; [exact Hr | lia].
Qed.

End NoPruning.

Lemma frontier_weight_init (options : list item) :
  frontier_weight (fst (bb_init options))
  = (2 ^ S (length options) - 2)%nat.
Proof.
  unfold bb_init. cbn [fst].
  pose proof (expand_branches_weight_exact (repeat None (length options)))
    as Hw.
  unfold weight in Hw. rewrite unset_repeat_None in Hw. lia.
Qed.

(** X9: when the costs are not negative and their sum is within the
    bound, nothing is pruned: the loop of [branch_and_bound] makes exactly
    [2^(n+1) - 2] rounds, one for each node below the root.  After [k] of
    them the queue is empty if and only if [k = 2^(n+1) - 2]. *)
Theorem rounds_without_pruning (options : list item) (bound : Z) (k : nat) :
  nonneg_costs options -> total_cost options <= bound ->
  (k <= 2 ^ S (length options) - 2)%nat ->
  exists st,
    bb_rounds options bound k (bb_init options) = Ok st /\
    (fst st = [] <-> k = (2 ^ S (length options) - 2)%nat).
Proof.
  intros Hnn Hfit Hk.
  pose proof (frontier_weight_init options) as Hw0.
  destruct (full_rounds options bound Hnn Hfit k (bb_init options))
    as (st & Hr & Hw).
  - unfold bb_init. cbn [fst]. apply expand_branches_good, good_repeat_None.
  - lia.
  - exists st. split; [exact Hr|].
    rewrite <- frontier_weight_zero. lia.
Qed.

Lemma rounds_without_pruning_witness :
  nonneg_costs [(10, 5); (7, 3)] /\ total_cost [(10, 5); (7, 3)] <= 8 /\
  (6 <= 2 ^ S (length [(10, 5); (7, 3)]) - 2)%nat /\
  exists st,
    bb_rounds [(10, 5); (7, 3)] 8 6 (bb_init [(10, 5); (7, 3)]) = Ok st /\
    (fst st = [] <-> 6%nat = (2 ^ S (length [(10, 5); (7, 3)]) - 2)%nat).
Proof.
  assert (Hnn : nonneg_costs [(10, 5); (7, 3)]).
  { repeat constructor; simpl; lia. }
  assert (Hfit : total_cost [(10, 5); (7, 3)] <= 8)
    by (unfold total_cost; simpl; lia).
  assert (Hk : (6 <= 2 ^ S (length [(10, 5); (7, 3)]) - 2)%nat)
    by (simpl; lia).
  split; [exact Hnn|]. split; [exact Hfit|]. split; [exact Hk|].
  exact (rounds_without_pruning [(10, 5); (7, 3)] 8 6 Hnn Hfit Hk).
Defined.

(** ** The search tree and the enumeration *)













(** ** The second half of the test of [brute_force], below zero *)

(** X11: the second half of the test of [brute_force] does not ask for
    feasibility.  With the one item of value 0 and cost [c], where
    [bound < c < 0], the loop ends with the solution [[1]] as its best
    solution, whose cost [c] is outside the bound, and [brute_force]
    raises [AssertionError]; [branch_and_bound] prunes this node, keeps
    the initial best solution of cost 0, and raises as well. *)
Theorem tie_break_outside_bound (bound c : Z) :
  bound < c -> c < 0 ->
  bf_after [(0, c)] bound 2 = Ok ([Some 1], 0, c) /\
  brute_force [(0, c)] bound = Raise AssertionError /\
  bb_loop [(0, c)] bound (fst (bb_init [(0, c)])) (snd (bb_init [(0, c)]))
  = Ok ([Some 0], 0, 0) /\
  branch_and_bound [(0, c)] bound = Raise AssertionError.
Proof.
  intros Hlo Hhi.
  assert (Hloop : bf_loop [(0, c)] bound [[0]; [1]] ([Some 0], 0, 0)
                  = Ok ([Some 1], 0, c)).
  { simpl bf_loop.
    rewrite (bf_step_sized [(0, c)] bound ([Some 0], 0, 0) [0] eq_refl).
    cbn [bind].
    replace (bf_improves bound (sum_included fst (map Some [0]) [(0, c)])
               (sum_included snd (map Some [0]) [(0, c)]) ([Some 0], 0, 0))
      with false
      by (unfold bf_improves, sum_included, cand_value, cand_cost; simpl; lia).
    rewrite (bf_step_sized [(0, c)] bound ([Some 0], 0, 0) [1] eq_refl).
    cbn [bind].
    replace (bf_improves bound (sum_included fst (map Some [1]) [(0, c)])
               (sum_included snd (map Some [1]) [(0, c)]) ([Some 0], 0, 0))
      with true
      by (unfold bf_improves, sum_included, cand_value, cand_cost; simpl; lia).
    unfold sum_included. simpl. rewrite Z.add_0_r. reflexivity. }
  assert (Hbb : bb_loop [(0, c)] bound [[Some 0]; [Some 1]] ([Some 0], 0, 0)
                = Ok ([Some 0], 0, 0)).
  { rewrite bb_loop_round, bb_round_good by reflexivity.
    unfold sum_included. simpl.
    replace (0 <=? bound) with false by lia. cbn [bind fst snd].
    rewrite bb_loop_round, bb_round_good by reflexivity.
    unfold sum_included. simpl. rewrite Z.add_0_r.
    replace (c <=? bound) with false by lia. cbn [bind fst snd].
    now rewrite bb_loop_round. }
  split; [exact Hloop|]. split; [|split; [exact Hbb|]].
  - unfold brute_force. cbv zeta. simpl length. simpl product01.
    simpl repeat. rewrite Hloop. cbn [bind]. unfold cand_cost. cbn [snd].
    replace (c <=? bound) with false by lia. reflexivity.
  - unfold branch_and_bound. cbv zeta.
    change (expand_branches (repeat None (length [(0, c)])))
      with [[Some 0]; [Some 1]].
    simpl length. simpl repeat. rewrite Hbb. cbn [bind].
    unfold cand_cost. cbn [snd].
    replace (0 <=? bound) with false by lia. reflexivity.
Qed.

Lemma tie_break_outside_bound_witness :
  -5 < -2 /\ -2 < 0 /\
  bf_after [(0, -2)] (-5) 2 = Ok ([Some 1], 0, -2) /\
  brute_force [(0, -2)] (-5) = Raise AssertionError.
Proof.
  assert (Hlo : -5 < -2) by lia.
  assert (Hhi : -2 < 0) by lia.
  split; [exact Hlo|]. split; [exact Hhi|].
  destruct (tie_break_outside_bound (-5) (-2) Hlo Hhi) as (H1 & H2 & _).
  split; [exact H1 | exact H2].
Defined.

(** ** The sign of what is returned *)

(** X12: whatever the items and the bound, with values of any sign, a
    solver that returns never returns a negative value, and it returns
    the value 0 only with a cost of at most 0: the result is at least as
    good as the initial solution that takes nothing. *)
Theorem returned_value_not_negative (options : list item) (bound : Z)
  (a : list Z) (v c : Z) :
  branch_and_bound options bound = Ok (a, v, c) \/
  brute_force options bound = Ok (a, v, c) ->
  0 <= v /\ (v = 0 -> c <= 0).
Proof.
  assert (Hdom : forall best : candidate,
             dominates best 0 0 ->
             (if cand_cost best <=? bound
              then Ok (fill (cand_node best), cand_value best, cand_cost best)
              else Raise AssertionError) = Ok (a, v, c) ->
             0 <= v /\ (v = 0 -> c <= 0)).
  { intros best Hd. destruct (cand_cost best <=? bound); [|discriminate].
    intros [= _ <- <-]. unfold dominates in Hd. lia. }
  intros [H | H].
  - destruct (bb_loop_invariant options bound (kept options bound)
                (kept_round options bound) (bb_init options)
                (kept_init options bound))
      as (k & best & _ & Hr & Hloop & _).
    apply bb_rounds_dominates in Hr.
    unfold bb_init in Hloop, Hr. cbn [fst snd] in Hloop, Hr.
    unfold branch_and_bound in H. cbv zeta in H. rewrite Hloop in H.
    exact (Hdom best Hr H).
  - unfold brute_force in H. cbv zeta in H.
    destruct (bf_loop options bound (product01 (length options))
                (repeat (Some 0) (length options), 0, 0))
      as [best|e] eqn:E; [|discriminate].
    apply bf_loop_dominates in E.
    exact (Hdom best E H).
Qed.

Lemma returned_value_not_negative_witness :
  (branch_and_bound [(-4, 1); (0, -2)] 3 = Ok ([0; 1], 0, -2) \/
   brute_force [(-4, 1); (0, -2)] 3 = Ok ([0; 1], 0, -2)) /\
  0 <= 0 /\ (0 = 0 -> -2 <= 0).
Proof.
  assert (E : branch_and_bound [(-4, 1); (0, -2)] 3 = Ok ([0; 1], 0, -2) \/
              brute_force [(-4, 1); (0, -2)] 3 = Ok ([0; 1], 0, -2))
    by (right; reflexivity).
  split; [exact E|].
  exact (returned_value_not_negative _ _ _ _ _ E).
Defined.
